(** * mirror_controller.py: host controller for the resonant mirror (ESP32)

    A shallow embedding of the parts of [mirror_controller.py] that carry
    the behaviour of the dot generators, the external dot-list parser, the
    image line encoder, the receive buffer of the serial client and the
    correlated send, followed by the properties established about them.

    Conventions of the embedding
    - Python [int] is [Z]; [&] is [Z.land]; [//] is [Z.div].
    - [int(a / b)] on non-negative integers below 2^53 is [Z.quot a b]:
      the double quotient is correctly rounded and, when it is not an
      integer, lies at least [1/b] below the next integer, which is more
      than its rounding error, so truncation yields the exact quotient.
      The generators divide [i * 65535] with [i] below the capacity, which
      the module binds to 100 and to 1024.
    - a dot [{"idxNorm": i, "rgbMask": m}] is a record; a parsed JSON value
      is a [json] tree whose objects are insertion-ordered association
      lists with unique keys, as [json.loads] builds them.
    - an uncaught Python exception is the [Raise] outcome of [py].
    - wall-clock time is an explicit clock in integer milliseconds. *)

From Stdlib Require Import String Ascii DecimalString QArith ZArith List Bool Lia.
From Stdlib Require Import Sorting.Sorted.
Import ListNotations.

#[local] Set Warnings "-register-all".

Local Open Scope string_scope.
Local Open Scope list_scope.
Local Open Scope Z_scope.

(** ** Python runtime fragments *)

Module Py.

(** Outcome of a call that may raise. *)
Inductive exn : Type :=
| TypeError
| ValueError
| OverflowError
| NameError
| RuntimeError (msg : string).

(** [OutOfFuel] is not a Python outcome: a loop whose length depends on the
    clock is run for a bounded number of iterations, and this is what is left
    when the bound is too small. *)
Inductive py (A : Type) : Type :=
| Ok (a : A)
| Raise (e : exn)
| OutOfFuel.
Arguments Ok {A} a.
Arguments Raise {A} e.
Arguments OutOfFuel {A}.

Definition bind {A B : Type} (m : py A) (k : A -> py B) : py B :=
  match m with
  | Ok a => k a
  | Raise e => Raise e
  | OutOfFuel => OutOfFuel
  end.

(** [range(n)] *)
Definition range (n : Z) : list Z :=
  map Z.of_nat (seq 0 (Z.to_nat n)).

(** [l[k:]] with Python's treatment of a negative start. *)
Definition slice_from {A : Type} (k : Z) (l : list A) : list A :=
  if k <? 0
  then skipn (Z.to_nat (Z.max 0 (Z.of_nat (length l) + k))) l
  else skipn (Z.to_nat k) l.

(** [l[:k]] with Python's treatment of a negative stop. *)
Definition slice_to {A : Type} (k : Z) (l : list A) : list A :=
  if k <? 0
  then firstn (Z.to_nat (Z.max 0 (Z.of_nat (length l) + k))) l
  else firstn (Z.to_nat k) l.

(** A Python float: a finite double is a rational. *)
Inductive float : Type :=
| Finite (q : Q)
| Inf (negative : bool)
| NaN.

(** [int(f)] on a float truncates toward zero. *)
Definition int_of_float (f : float) : py Z :=
  match f with
  | Finite q => Ok (Z.quot (Qnum q) (Zpos (Qden q)))
  | Inf _ => Raise OverflowError
  | NaN => Raise ValueError
  end.

(** [str(n)] for a natural number. *)
Definition str_of_nat (n : nat) : string :=
  NilEmpty.string_of_uint (Nat.to_uint n).

End Py.
Import Py.

Notation "x <- m ;; k" := (Py.bind m (fun x => k))
  (at level 61, m at next level, right associativity).

(** ** JSON values as [json.loads] returns them *)

Inductive json : Type :=
| JNull
| JBool (b : bool)
| JInt (z : Z)
| JFloat (f : Py.float)
| JStr (s : string)
| JArr (items : list json)
| JObj (fields : list (string * json)).

(** [d.get(key, default)] *)
Fixpoint dict_get (fields : list (string * json)) (key : string) (default : json)
  : json :=
  match fields with
  | [] => default
  | (k, v) :: rest => if String.eqb k key then v else dict_get rest key default
  end.

(** [key in d] *)
Fixpoint dict_has (fields : list (string * json)) (key : string) : bool :=
  match fields with
  | [] => false
  | (k, _) :: rest => String.eqb k key || dict_has rest key
  end.

(** ** Dots *)

Record Dot : Type := mkDot { idxNorm : Z; rgbMask : Z }.

(** [out.sort(key=lambda d: d["idxNorm"])]: Python's sort is stable, and a
    stable sort has one possible result; insertion that places an element
    before the first one whose key is not smaller computes it. *)
Fixpoint insert_by_idx (d : Dot) (l : list Dot) : list Dot :=
  match l with
  | [] => [d]
  | x :: rest =>
      if idxNorm d <=? idxNorm x then d :: l else x :: insert_by_idx d rest
  end.

Definition sort_by_idx (l : list Dot) : list Dot :=
  fold_right insert_by_idx [] l.

(** Ascending by [idxNorm]. *)
Definition idx_le (a b : Dot) : Prop := idxNorm a <= idxNorm b.

Definition ascending (l : list Dot) : Prop := Sorted idx_le l.

Fixpoint ascendingb (l : list Dot) : bool :=
  match l with
  | [] => true
  | x :: rest =>
      match rest with
      | [] => true
      | y :: _ => (idxNorm x <=? idxNorm y) && ascendingb rest
      end
  end.

(** Number of dots carrying a given mask. *)
Definition count_mask (m : Z) (l : list Dot) : nat :=
  length (filter (fun d => rgbMask d =? m) l).

(** ** Module namespace

    [DOT_CAP] is bound twice at module level (lines 46 and 364).  A function
    body reads the global when it is called; a default argument is evaluated
    once, when the [def] statement runs.  The namespace records the current
    binding of [DOT_CAP] and the default captured by the [def] of
    [image_line_to_dots] (line 224). *)

Record Globals : Type := mkGlobals {
  DOT_CAP : Z;
  image_line_to_dots_dot_cap_default : option Z
}.

Inductive top_stmt : Type :=
| AssignDotCap (v : Z)              (* DOT_CAP = v *)
| DefImageLineToDots                (* def image_line_to_dots(..., dot_cap=DOT_CAP, ...) *)
| DefOther (name : string).         (* a def without DOT_CAP defaults *)

Definition exec_top (g : Globals) (s : top_stmt) : Globals :=
  match s with
  | AssignDotCap v =>
      mkGlobals v (image_line_to_dots_dot_cap_default g)
  | DefImageLineToDots =>
      mkGlobals (DOT_CAP g) (Some (DOT_CAP g))
  | DefOther _ => g
  end.

(** The module-level statements that touch [DOT_CAP], in source order. *)
Definition module_body : list top_stmt :=
  [ AssignDotCap 100;               (* line 46 *)
    DefImageLineToDots;             (* line 221 *)
    DefOther "gen_single_dot";      (* line 304 *)
    DefOther "gen_line";            (* line 309 *)
    DefOther "gen_color_bars";      (* line 321 *)
    DefOther "parse_dots_json";     (* line 335 *)
    AssignDotCap 1024 ].            (* line 364 *)

(** The namespace after the first [k] of these statements.  Before line 46
    runs [DOT_CAP] is unbound; the first statement binds it, so the
    placeholder below is never read. *)
Definition globals_after (k : nat) : Globals :=
  fold_left exec_top (firstn k module_body) (mkGlobals 0 None).

(** The namespace once the module is loaded: what every call sees. *)
Definition module_init : Globals :=
  fold_left exec_top module_body (mkGlobals 0 None).

(** [y] is [x] clamped into [0, 65535]. *)
Definition clamped (x y : Z) : Prop :=
  0 <= y <= 65535 /\
  (x < 0 -> y = 0) /\
  (0 <= x <= 65535 -> y = x) /\
  (65535 < x -> y = 65535).

(** [y] keeps the three low bits of [x] and nothing else. *)
Definition low3 (x y : Z) : Prop :=
  0 <= y <= 7 /\
  forall i, 0 <= i -> Z.testbit y i = (i <? 3) && Z.testbit x i.

(** ** Dot generators (lines 304-333) *)

Definition gen_single_dot (idx_norm rgb_mask : Z) : list Dot :=
  let idx := Z.max 0 (Z.min 65535 idx_norm) in
  let mask := Z.land rgb_mask 7 in
  [mkDot idx mask].

Definition gen_line (g : Globals) (n rgb_mask : Z) : list Dot :=
  let n := Z.max 1 (Z.min (DOT_CAP g) n) in
  let mask := Z.land rgb_mask 7 in
  if n =? 1 then [mkDot 32768 mask]
  else map (fun i => mkDot (Z.quot (i * 65535) (n - 1)) mask) (range n).

(** One of the three [for i in range(n)] loops of [gen_color_bars]: the dots
    it appends. *)
Definition color_bar (n mask : Z) : list Dot :=
  map (fun i => mkDot (Z.quot (i * 65535) (Z.max 1 (n - 1))) mask) (range n).

Definition gen_color_bars (g : Globals) (n_per_color : Z) : list Dot :=
  let n := Z.max 1 (Z.min (DOT_CAP g / 3) n_per_color) in
  let out := color_bar n 1 ++ color_bar n 2 ++ color_bar n 4 in
  slice_to (DOT_CAP g) (sort_by_idx out).

(** ** Library calls

    Functions of the Python runtime, [json], PIL and numpy that the module
    calls and that are not part of it.  Every definition below takes them as
    given. *)

Definition pixel : Type := (Z * Z * Z)%type.

(** An RGB uint8 array of shape (H, W, 3): H rows of W pixels. *)
Definition image : Type := list (list pixel).

Record Lib : Type := mkLib {
  (** [s.strip()] *)
  str_strip : string -> string;
  (** [json.loads(s)]; [inl e] is the text of the exception raised *)
  json_loads : string -> string + json;
  (** [int(s)] on a [str]; [None] is [ValueError] *)
  int_of_str : string -> option Z;
  (** [_img_to_rgb_array(path)] (lines 200-205): PIL load *)
  img_to_rgb_array : string -> image;
  (** the PIL branch of [_scale_image_for_dots] (lines 215-219) *)
  resample : image -> Z -> image;
  (** lines 254-258 on one channel value, in float32: divide by 255, raise
      to [1/g] when a [g] is given, multiply by 255, clip, cast to uint8 *)
  tone : option Q -> Z -> Z
}.

Section WithLib.

Variable L : Lib.

(** *** External dot lists (lines 335-360) *)

(** [int(v)] on a value of a parsed JSON document. *)
Definition py_int (v : json) : py Z :=
  match v with
  | JInt z => Ok z
  | JBool b => Ok (if b then 1 else 0)
  | JFloat f => int_of_float f
  | JStr s =>
      match int_of_str L s with
      | Some z => Ok z
      | None => Raise ValueError
      end
  | JNull | JArr _ | JObj _ => Raise TypeError
  end.

(** How a stored dot relates to the entry [{...fields...}] it was read
    from: both fields convert, the position is clamped and the mask cut. *)
Definition stored_from (fields : list (string * json)) (d : Dot) : Prop :=
  exists i m,
    py_int (dict_get fields "idxNorm" (JInt 0)) = Ok i /\
    py_int (dict_get fields "rgbMask" (JInt 0)) = Ok m /\
    clamped i (idxNorm d) /\ low3 m (rgbMask d).

(** The [for v in obj] loop (lines 350-358); [dots] is the list built so
    far. *)
Fixpoint parse_entries (cap : Z) (items : list json) (dots : list Dot)
  : py (list Dot) :=
  match items with
  | [] => Ok dots
  | v :: rest =>
      match v with
      | JObj fields =>
          idx <- py_int (dict_get fields "idxNorm" (JInt 0)) ;;
          m <- py_int (dict_get fields "rgbMask" (JInt 0)) ;;
          let mask := Z.land m 7 in
          let idx := Z.max 0 (Z.min 65535 idx) in
          let dots := dots ++ [mkDot idx mask] in
          if Z.of_nat (length dots) >=? cap then Ok dots
          else parse_entries cap rest dots
      | _ => parse_entries cap rest dots
      end
  end.

(** Lines 345-346: an object with a ["dots"] key stands for that field. *)
Definition dots_field (obj : json) : json :=
  match obj with
  | JObj fields =>
      if dict_has fields "dots" then dict_get fields "dots" JNull else obj
  | _ => obj
  end.

(** Lines 344-360: what happens to the value [json.loads] returned. *)
Definition parse_dots_value (g : Globals) (obj : json)
  : py (list Dot * string) :=
  match dots_field obj with
  | JArr items =>
      dots <- parse_entries (DOT_CAP g) items [] ;;
      let dots := sort_by_idx dots in
      Ok (dots, "ok (" ++ str_of_nat (length dots) ++ " dots)")%string
  | _ => Ok ([], "expected a JSON list of dots or {dots:[...]}")
  end.

Definition parse_dots_json (g : Globals) (text : string)
  : py (list Dot * string) :=
  let text := str_strip L text in
  if String.eqb text EmptyString then Ok ([], "empty")
  else
    match json_loads L text with
    | inl e => Ok ([], "JSON parse error: " ++ e)%string
    | inr obj => parse_dots_value g obj
    end.

(** *** Image line to dots (lines 207-272) *)

Definition height (im : image) : Z := Z.of_nat (length im).
Definition width (im : image) : Z := Z.of_nat (length (hd [] im)).

Definition _scale_image_for_dots (rgb : image) (dot_cap : Z) : image :=
  if width rgb =? dot_cap then rgb else resample L rgb dot_cap.

(** The double nearest to the literal [0.1]. *)
Definition FLOAT_0_1 : Q := 3602879701896397 # 36028797018963968.

(** What [image_line_to_dots] hands back: its annotation promises a pair
    [(dots, meta)]; a [dict] is the other shape occurring in the body. *)
Inductive returned : Type :=
| RetPair (dots : list Dot) (meta : json)
| RetDict (fields : list (string * json)).

(** The mask of one pixel against the threshold (line 269). *)
Definition pixel_mask (thr : Z) (p : pixel) : Z :=
  let '(r, g_, b) := p in
  Z.lor (Z.lor (if r >=? thr then 1 else 0) (if g_ >=? thr then 2 else 0))
        (if b >=? thr then 4 else 0).

(** The [for x in range(W)] loop (lines 267-271).  The body computes the
    mask and, when it is zero, continues; nothing follows the test, so a
    non-zero mask leaves [dots] as it is too. *)
Definition scan_pixels (thr : Z) (line_u8 : list pixel) (W : Z)
  : list Dot :=
  fold_left
    (fun (dots : list Dot) (x : Z) =>
       let mask := pixel_mask thr (nth (Z.to_nat x) line_u8 (0, 0, 0)) in
       if mask =? 0 then dots else dots)
    (range W) [].

(** Lines 246-262: the tone-mapped, possibly reversed row the loop runs on,
    and its width.  An image has at least one row, so the row index is in
    range. *)
Definition prepared_line (dot_cap : Z) (image_path : string)
    (line_index : option Z) (gamma : Q) (serpentine : bool)
  : list pixel * Z :=
  let rgb := img_to_rgb_array L image_path in
  let scaled := _scale_image_for_dots rgb dot_cap in
  let H := height scaled in
  let W := width scaled in
  let line_index := match line_index with None => H / 2 | Some i => i end in
  let line_index := Z.max 0 (Z.min (H - 1) line_index) in
  let line := nth (Z.to_nat line_index) scaled [] in
  let g := if Qle_bool gamma FLOAT_0_1 then FLOAT_0_1 else gamma in
  let pow := if Qeq_bool g 1 then None else Some g in
  let line_u8 :=
    map (fun '(r, g_, b) => (tone L pow r, tone L pow g_, tone L pow b))
        line in
  let line_u8 :=
    if serpentine && (line_index mod 2 =? 1) then rev line_u8 else line_u8 in
  (line_u8, W).

(** The local [dots] when the function returns. *)
Definition image_line_to_dots_dots (dot_cap : Z) (image_path : string)
    (line_index : option Z) (threshold : Z) (gamma : Q) (serpentine : bool)
  : list Dot :=
  let '(line_u8, W) :=
    prepared_line dot_cap image_path line_index gamma serpentine in
  let thr := Z.max 0 (Z.min 255 threshold) in
  scan_pixels thr line_u8 W.

(** The value the parameter [dot_cap] is bound to in a call: the argument,
    or, when the call leaves it out ([None]), the default captured when the
    [def] ran.  Before the [def] has run there is no function to call. *)
Definition bound_dot_cap (g : Globals) (dot_cap : option Z) : option Z :=
  match image_line_to_dots_dot_cap_default g with
  | None => None
  | Some default =>
      Some (match dot_cap with Some c => c | None => default end)
  end.

(** A call as it runs: the locals [scaled] (line 247) and [dots] when the
    function returns, and what it returns.  [threshold], [gamma] and
    [serpentine] have defaults too (32, 1.0 and False); a call here passes
    them. *)
Definition image_line_to_dots_call (g : Globals) (image_path : string)
    (line_index : option Z) (dot_cap : option Z) (threshold : Z)
    (gamma : Q) (serpentine : bool) : py (image * list Dot * returned) :=
  match bound_dot_cap g dot_cap with
  | None => Raise NameError
  | Some dot_cap =>
      let rgb := img_to_rgb_array L image_path in
      let scaled := _scale_image_for_dots rgb dot_cap in
      let dots :=
        image_line_to_dots_dots dot_cap image_path line_index threshold
                                gamma serpentine in
      Ok (scaled, dots, RetDict [("status", JStr "autoscan_stopped")])
  end.

(** What the caller gets. *)
Definition image_line_to_dots (g : Globals) (image_path : string)
    (line_index : option Z) (dot_cap : option Z) (threshold : Z)
    (gamma : Q) (serpentine : bool) : py returned :=
  r <- image_line_to_dots_call g image_path line_index dot_cap threshold
         gamma serpentine ;;
  Ok (snd r).

End WithLib.

(** ** Serial client (lines 51-188) *)

Record DeviceLine : Type := mkLine {
  t : Z;                    (* time.time() when the line was framed, in ms *)
  raw : string;
  obj : option json
}.

(** *** The receive queue: [queue.Queue(maxsize=1000)], oldest first *)

Definition RXQ_MAXSIZE : Z := 1000.

(** [put_nowait]; [None] is [queue.Full]. *)
Definition put_nowait (q : list DeviceLine) (dl : DeviceLine)
  : option (list DeviceLine) :=
  if Z.of_nat (length q) <? RXQ_MAXSIZE then Some (q ++ [dl]) else None.

(** [get_nowait]; [None] is [queue.Empty]. *)
Definition get_nowait (q : list DeviceLine)
  : option (DeviceLine * list DeviceLine) :=
  match q with
  | [] => None
  | x :: rest => Some (x, rest)
  end.

(** *** Reader thread (lines 122-150) *)

(** Lines 139-150: publish, dropping the oldest entry when full. *)
Definition publish (q : list DeviceLine) (dl : DeviceLine) : list DeviceLine :=
  match put_nowait q dl with
  | Some q' => q'
  | None =>
      let q1 :=
        match get_nowait q with
        | Some (_, rest) => rest
        | None => q
        end in
      match put_nowait q1 dl with
      | Some q2 => q2
      | None => q1
      end
  end.

(** [s.endswith(c)] for a one-character [c]. *)
Fixpoint ends_with (c : ascii) (s : string) : bool :=
  match s with
  | EmptyString => false
  | String a EmptyString => Ascii.eqb a c
  | String _ rest => ends_with c rest
  end.

(** Lines 131-138: the [DeviceLine] made of a decoded line read at [now]. *)
Definition device_line_of (L : Lib) (now : Z) (decoded : string) : DeviceLine :=
  let raw := str_strip L decoded in
  let obj :=
    if prefix "{" raw && ends_with "}" raw then
      match json_loads L raw with
      | inr o => Some o
      | inl _ => None
      end
    else None in
  mkLine now raw obj.

(** What [self.ser.readline()] did. *)
Inductive readline : Type :=
| ReadRaised
| ReadNothing
| ReadLine (decoded : string).

(** One turn of the [while] loop of [_reader_loop]; [None] leaves the loop. *)
Definition reader_turn (L : Lib) (now : Z) (q : list DeviceLine) (r : readline)
  : option (list DeviceLine) :=
  match r with
  | ReadRaised => None
  | ReadNothing => Some q
  | ReadLine decoded => Some (publish q (device_line_of L now decoded))
  end.

(** *** The client and its surroundings

    [now] is the clock; [tx] the payloads written to the link, each as one
    line of compact JSON; [rxq] the receive queue; [incoming] the lines the
    reader thread is going to publish, each at its own time [t].  The
    caller's statements take no time; the clock moves only while the caller
    is blocked in [get], and the reader thread has published, by then, every
    line whose time has come. *)

Record World : Type := mkWorld {
  now : Z;
  ser_open : bool;
  tx : list json;
  rxq : list DeviceLine;
  incoming : list DeviceLine
}.

(** The reader thread publishes every line whose time has come. *)
Fixpoint deliver (now : Z) (q inc : list DeviceLine)
  : list DeviceLine * list DeviceLine :=
  match inc with
  | [] => (q, [])
  | dl :: rest =>
      if t dl <=? now then deliver now (publish q dl) rest else (q, inc)
  end.

(** [self._rxq.get(timeout=...)]: the oldest entry if there is one; else the
    first line published within the timeout, the caller resuming when it
    arrives; else [queue.Empty] ([None]) once the timeout has passed. *)
Definition queue_get (timeout : Z) (w : World) : option DeviceLine * World :=
  let '(q, inc) := deliver (now w) (rxq w) (incoming w) in
  match q with
  | x :: rest => (Some x, mkWorld (now w) (ser_open w) (tx w) rest inc)
  | [] =>
      match inc with
      | dl :: later =>
          if t dl <? now w + timeout
          then (Some dl, mkWorld (t dl) (ser_open w) (tx w) [] later)
          else (None, mkWorld (now w + timeout) (ser_open w) (tx w) [] inc)
      | [] => (None, mkWorld (now w + timeout) (ser_open w) (tx w) [] [])
      end
  end.

(** The poll of the reply wait: [get(timeout=0.05)]. *)
Definition POLL_MS : Z := 50.

Definition timeout_obj : json := JObj [("error", JStr "timeout")].

(** Lines 165-173. *)
Fixpoint wait_json_loop (fuel : nat) (deadline : Z) (w : World)
  : py (DeviceLine * World) :=
  match fuel with
  | O => OutOfFuel
  | S fuel =>
      if now w <? deadline then
        match queue_get POLL_MS w with
        | (None, w') => wait_json_loop fuel deadline w'
        | (Some dl, w') =>
            match obj dl with
            | Some _ => Ok (dl, w')
            | None => wait_json_loop fuel deadline w'
            end
        end
      else
        Ok (mkLine (now w) "(timeout waiting for JSON)" (Some timeout_obj), w)
  end.

(** What bounds the turns of the reply wait: every turn but the last takes a
    buffered or expected line away or moves the clock one poll interval
    towards the deadline. *)
Definition wait_measure (deadline : Z) (w : World) : nat :=
  (length (rxq w) + length (incoming w)
   + Z.to_nat ((deadline - now w + POLL_MS - 1) / POLL_MS))%nat.

(** Turns that are always enough: the measure, and one for the final test. *)
Definition wait_fuel (deadline : Z) (w : World) : nat :=
  S (wait_measure deadline w).

(** No line carrying a parsed JSON object is queued before [bound]: none is
    in the buffer, and none is published before [bound]. *)
Definition no_json_before (bound : Z) (w : World) : Prop :=
  (forall dl, In dl (rxq w) -> obj dl = None) /\
  (forall dl, In dl (incoming w) -> t dl < bound -> obj dl = None).

(** Lines 152-173; [timeout_ms] is [timeout_s] in milliseconds.  The write
    and the flush are taken to succeed at once: an exception of the link
    (a write timeout) would leave the function before the wait begins.
    [send_json_env] further down is the same function on a link that can
    fail and takes its time. *)
Definition send_json (fuel : nat) (w : World) (payload : json)
    (wait_json : bool) (timeout_ms : Z) : py (DeviceLine * World) :=
  if negb (ser_open w) then Raise (RuntimeError "Serial not open")
  else
    let w := mkWorld (now w) (ser_open w) (tx w ++ [payload]) (rxq w)
                     (incoming w) in
    if negb wait_json then Ok (mkLine (now w) "(sent)" None, w)
    else
      let deadline := now w + timeout_ms in
      wait_json_loop fuel deadline w.

(** Lines 177-182: pull everything. *)
Fixpoint drain (q items : list DeviceLine) : list DeviceLine :=
  match q with
  | [] => items
  | x :: rest => drain rest (items ++ [x])
  end.

(** Lines 183-187: push back until the queue refuses. *)
Fixpoint put_back (q items : list DeviceLine) : list DeviceLine :=
  match items with
  | [] => q
  | it :: rest =>
      match put_nowait q it with
      | Some q' => put_back q' rest
      | None => q
      end
  end.

(** Lines 175-188. *)
Definition get_recent_lines (w : World) (max_lines : Z)
  : list DeviceLine * World :=
  let '(q, inc) := deliver (now w) (rxq w) (incoming w) in
  let items := drain q [] in
  let q' := put_back [] items in
  (slice_from (- max_lines) items,
   mkWorld (now w) (ser_open w) (tx w) q' inc).

(** ** Device-level helpers (lines 276-299) and the upload action (417-425) *)

(** Truth value of a parsed JSON value, as [or] and [not] test it. *)
Definition truthy (v : json) : bool :=
  match v with
  | JNull => false
  | JBool b => b
  | JInt z => negb (z =? 0)
  | JFloat (Finite q) => negb (Qnum q =? 0)
  | JFloat _ => true
  | JStr s => negb (String.eqb s EmptyString)
  | JArr items => match items with [] => false | _ => true end
  | JObj fields => match fields with [] => false | _ => true end
  end.

(** [dl.obj or {"raw": dl.raw}] *)
Definition obj_or_raw (dl : DeviceLine) : json :=
  match obj dl with
  | Some o => if truthy o then o else JObj [("raw", JStr (raw dl))]
  | None => JObj [("raw", JStr (raw dl))]
  end.

Definition dot_json (d : Dot) : json :=
  JObj [("idxNorm", JInt (idxNorm d)); ("rgbMask", JInt (rgbMask d))].

Definition cmd_upload_dots (fuel : nat) (w : World) (dots : list Dot)
  : py (json * World) :=
  r <- send_json fuel w
         (JObj [("cmd", JStr "dots.inactive"); ("dots", JArr (map dot_json dots))])
         true 2000 ;;
  Ok (obj_or_raw (fst r), snd r).

Definition cmd_swap (fuel : nat) (w : World) : py (json * World) :=
  r <- send_json fuel w
         (JObj [("cmd", JStr "dots.swap"); ("value", JBool true)])
         true 1000 ;;
  Ok (obj_or_raw (fst r), snd r).

(** The value handed to [json.dumps(..., indent=2)], and the world after. *)
Definition ui_upload_and_swap (L : Lib) (g : Globals) (fuel : nat) (w : World)
    (dots_json_text : string) (do_swap : bool) : py (json * World) :=
  p <- parse_dots_json L g dots_json_text ;;
  let '(dots, msg) := p in
  match dots with
  | [] => Ok (JObj [("error", JStr "no_dots"); ("detail", JStr msg)], w)
  | _ :: _ =>
      up <- cmd_upload_dots fuel w dots ;;
      if do_swap then
        sw <- cmd_swap fuel (snd up) ;;
        Ok (JObj [("upload", fst up); ("swap", fst sw)], snd sw)
      else Ok (JObj [("upload", fst up)], snd up)
  end.

(** ** Auto-scan sessions

    [start_auto_image_scan] and [stop_auto_image_scan] are called by the UI
    actions of lines 556-584 and defined nowhere in the module. *)

Module Scan.

(** Modelled from the spec: the scan session record of the data model, which
    the module does not define. *)
Record ScanSession : Type := mkSession {
  image_ref : string;
  current_line : Z;
  start_line : Z;
  end_line : Z;
  interval_ms : Z;
  loop : bool;
  running : bool
}.

(** Modelled from the spec: a controller owns the sessions created on it; a
    session that is stopped or exhausted stays with [running = false]. *)
Definition Controller : Type := list ScanSession.

Definition is_running (c : Controller) : bool := existsb running c.

Definition running_count (c : Controller) : nat :=
  length (filter running c).

(** Modelled from the spec: what a start answers; the spec fixes that a
    second start is rejected, not the shape of the reply. *)
Inductive start_reply : Type :=
| Started
| RejectedAlreadyRunning.

(** Modelled from the spec: the missing [start_auto_image_scan], with the
    keyword arguments of the call on lines 564-574.  It rejects when a
    session is already Running; otherwise it creates a Running session at
    [start_line], the end line defaulting to the last row of the scaled
    image.  The encoding arguments are for the encoder at each tick and play
    no part in the session's line index and running flag. *)
Definition start_auto_image_scan (L : Lib) (g : Globals) (c : Controller)
    (image_path : string) (start_line : Z) (end_line : option Z)
    (interval_ms : Z) (threshold : Z) (gamma : Q) (serpentine do_swap : bool)
    (loop : bool) : start_reply * Controller :=
  if is_running c then (RejectedAlreadyRunning, c)
  else
    let scaled :=
      _scale_image_for_dots L (img_to_rgb_array L image_path) (DOT_CAP g) in
    let last := height scaled - 1 in
    let e := match end_line with Some e => e | None => last end in
    (Started,
     c ++ [mkSession image_path start_line start_line e interval_ms loop true]).

Definition stop_session (s : ScanSession) : ScanSession :=
  mkSession (image_ref s) (current_line s) (start_line s) (end_line s)
            (interval_ms s) (loop s) false.

(** Modelled from the spec: the missing [stop_auto_image_scan]; a Running
    session becomes Idle. *)
Definition stop_auto_image_scan (c : Controller) : Controller :=
  map stop_session c.

(** Modelled from the spec: the index step of one tick of a Running session:
    advance; past the end line wrap to the start line when looping, else
    stop. *)
Definition tick_session (s : ScanSession) : ScanSession :=
  if running s then
    let next := current_line s + 1 in
    if next >? end_line s then
      if loop s
      then mkSession (image_ref s) (start_line s) (start_line s) (end_line s)
                     (interval_ms s) (loop s) true
      else mkSession (image_ref s) next (start_line s) (end_line s)
                     (interval_ms s) (loop s) false
    else mkSession (image_ref s) next (start_line s) (end_line s)
                   (interval_ms s) (loop s) true
  else s.

Definition tick (c : Controller) : Controller := map tick_session c.

(** Lines 556-576: the UI action passes its arguments on; [end_line] is
    [None] for a blank field. *)
Definition ui_start_autoscan (L : Lib) (g : Globals) (c : Controller)
    (image_path : string) (start_line : Z) (end_line : option Z)
    (interval_ms : Z) (threshold : Z) (gamma : Q) (serpentine do_swap : bool)
    (loop : bool) : start_reply * Controller :=
  start_auto_image_scan L g c image_path start_line end_line interval_ms
                        threshold gamma serpentine do_swap loop.

(** Lines 578-579. *)
Definition ui_stop_autoscan (c : Controller) : Controller :=
  stop_auto_image_scan c.

(** What a user can do to a controller. *)
Inductive action : Type :=
| ActStart (image_path : string) (start_line : Z) (end_line : option Z)
           (interval_ms : Z) (threshold : Z) (gamma : Q)
           (serpentine do_swap : bool) (loop : bool)
| ActStop
| ActTick.

Definition act (L : Lib) (g : Globals) (c : Controller) (a : action)
  : Controller :=
  match a with
  | ActStart p s e i th ga se sw l =>
      snd (ui_start_autoscan L g c p s e i th ga se sw l)
  | ActStop => ui_stop_autoscan c
  | ActTick => tick c
  end.

Definition run (L : Lib) (g : Globals) (acts : list action) : Controller :=
  fold_left (act L g) acts [].

End Scan.

(** ** Further parts of the module *)

(** *** Vocabulary of the further properties *)

(** A dot as the wire format takes it: a 16-bit position, a 3-bit mask. *)
Definition wire_dot (d : Dot) : Prop :=
  0 <= idxNorm d <= 65535 /\ 0 <= rgbMask d <= 7.

(** What the parser stores for an entry with integer fields. *)
Definition normalized (d : Dot) : Dot :=
  mkDot (Z.max 0 (Z.min 65535 (idxNorm d))) (Z.land (rgbMask d) 7).

(** Strictly ascending positions: no two dots share one. *)
Definition increasing (l : list Dot) : Prop :=
  Sorted (fun a b => idxNorm a < idxNorm b) l.

(** The dots of a list that sit at position [p], in the order of the list. *)
Definition at_position (p : Z) (l : list Dot) : list Dot :=
  filter (fun d => idxNorm d =? p) l.

(** *** The send on a link that takes its time (lines 152-173)

    [send_json] above runs on an ideal link: the write succeeds at once and
    a poll ends the moment its item arrives or its timeout passes.  Here the
    surroundings say how long the write and the flush take, whether they
    raise (a write timeout, line 96), and by how much each poll of the wait
    comes back late: a blocked [get] is woken some time after its timeout or
    after the item it waits for, and the statements around it take time
    too. *)

Record LinkEnv : Type := mkEnv {
  write_ms : Z;                (* duration of lines 157-159 *)
  write_error : option exn;    (* the exception of write or flush, if any *)
  late : nat -> Z              (* lateness of the k-th poll of the wait *)
}.

(** [self._rxq.get(timeout=...)] ending [lateness] late: the oldest entry
    if there is one; else the first line published before the caller is
    back; else [queue.Empty]. *)
Definition queue_get_env (lateness timeout : Z) (w : World)
  : option DeviceLine * World :=
  let '(q, inc) := deliver (now w) (rxq w) (incoming w) in
  match q with
  | x :: rest =>
      (Some x, mkWorld (now w + lateness) (ser_open w) (tx w) rest inc)
  | [] =>
      match inc with
      | dl :: later =>
          if t dl <? now w + timeout + lateness
          then (Some dl,
                mkWorld (Z.min (t dl) (now w + timeout) + lateness)
                        (ser_open w) (tx w) [] later)
          else (None,
                mkWorld (now w + timeout + lateness) (ser_open w) (tx w) []
                        inc)
      | [] =>
          (None,
           mkWorld (now w + timeout + lateness) (ser_open w) (tx w) [] [])
      end
  end.

(** Lines 165-173; [k] counts the polls made so far. *)
Fixpoint wait_json_loop_env (late : nat -> Z) (k fuel : nat) (deadline : Z)
    (w : World) : py (DeviceLine * World) :=
  match fuel with
  | O => OutOfFuel
  | S fuel =>
      if now w <? deadline then
        match queue_get_env (late k) POLL_MS w with
        | (None, w') => wait_json_loop_env late (S k) fuel deadline w'
        | (Some dl, w') =>
            match obj dl with
            | Some _ => Ok (dl, w')
            | None => wait_json_loop_env late (S k) fuel deadline w'
            end
        end
      else
        Ok (mkLine (now w) "(timeout waiting for JSON)" (Some timeout_obj), w)
  end.

(** Lines 152-173. *)
Definition send_json_env (E : LinkEnv) (fuel : nat) (w : World)
    (payload : json) (wait_json : bool) (timeout_ms : Z)
  : py (DeviceLine * World) :=
  if negb (ser_open w) then Raise (RuntimeError "Serial not open")
  else
    match write_error E with
    | Some e => Raise e
    | None =>
        let w := mkWorld (now w + write_ms E) (ser_open w) (tx w ++ [payload])
                         (rxq w) (incoming w) in
        if negb wait_json then Ok (mkLine (now w) "(sent)" None, w)
        else
          let deadline := now w + timeout_ms in
          wait_json_loop_env (late E) 0 fuel deadline w
    end.

(** The ideal link. *)
Definition ideal_env : LinkEnv := mkEnv 0 None (fun _ => 0).

(** *** What a command helper answers

    [run] is the outcome of a helper that sends [payload] and waits
    [timeout_ms]: it returns; the request is the one thing written; the
    line [send_json] handed back carries an object; and the answer is that
    object when it is not empty, else the raw text of the line. *)
Definition command_answers (fuel : nat) (w : World) (payload : json)
    (timeout_ms : Z) (run : py (json * World)) : Prop :=
  exists dl w' reply,
    send_json fuel w payload true timeout_ms = Ok (dl, w') /\
    run = Ok (reply, w') /\
    tx w' = tx w ++ [payload] /\
    (exists o,
       obj dl = Some o /\
       (truthy o = true -> reply = o) /\
       (truthy o = false -> reply = JObj [("raw", JStr (raw dl))])) /\
    truthy reply = true.

(** *** The reader thread as a whole (lines 122-150)

    [reads] is what the successive calls of [readline] did, each with the
    clock reading at that turn; the list ends when the stop event is seen. *)
Fixpoint _reader_loop (L : Lib) (reads : list (Z * readline))
    (q : list DeviceLine) : list DeviceLine :=
  match reads with
  | [] => q
  | (now, r) :: rest =>
      match reader_turn L now q r with
      | None => q
      | Some q' => _reader_loop L rest q'
      end
  end.

(** The lines the reader frames out of [reads]: those before the first
    exception of the link, empty reads left out. *)
Fixpoint framed_lines (L : Lib) (reads : list (Z * readline))
  : list DeviceLine :=
  match reads with
  | [] => []
  | (_, ReadRaised) :: _ => []
  | (_, ReadNothing) :: rest => framed_lines L rest
  | (now, ReadLine decoded) :: rest =>
      device_line_of L now decoded :: framed_lines L rest
  end.

(** *** The other device-level helpers (lines 276-290) *)

Definition cmd_arm (fuel : nat) (w : World) (value : bool)
  : py (json * World) :=
  r <- send_json fuel w (JObj [("cmd", JStr "arm"); ("value", JBool value)])
         true 1000 ;;
  Ok (obj_or_raw (fst r), snd r).

Definition cmd_status (fuel : nat) (w : World) : py (json * World) :=
  r <- send_json fuel w (JObj [("cmd", JStr "status")]) true 1000 ;;
  Ok (obj_or_raw (fst r), snd r).

Definition cmd_telemetry (fuel : nat) (w : World) : py (json * World) :=
  r <- send_json fuel w (JObj [("cmd", JStr "get"); ("path", JStr "*")])
         true 1500 ;;
  Ok (obj_or_raw (fst r), snd r).

Definition cmd_set (fuel : nat) (w : World) (path : string) (value : json)
  : py (json * World) :=
  r <- send_json fuel w
         (JObj [("cmd", JStr "set"); ("path", JStr path); ("value", value)])
         true 1000 ;;
  Ok (obj_or_raw (fst r), snd r).

(** *** UI actions (lines 396-438)

    An action that ends in [json.dumps(x, indent=2)] returns [x]. *)



(** The dots whose JSON text goes to the editor, and the message. *)
Definition ui_make_pattern (g : Globals) (kind : string) (n idx rgb_mask : Z)
  : list Dot * string :=
  let dots :=
    if String.eqb kind "single" then gen_single_dot idx rgb_mask
    else if String.eqb kind "line" then gen_line g n rgb_mask
    else gen_color_bars g n in
  (dots, ("generated " ++ str_of_nat (length dots) ++ " dots")%string).

Definition newline : string := String (ascii_of_nat 10) EmptyString.

(** The lines [ui_log_tail] shows, oldest first. *)
Definition ui_log_tail_lines (w : World) (n : Z) : list DeviceLine * World :=
  let '(lines, w') := get_recent_lines w (Z.max 1 n) in
  (slice_from (- n) lines, w').

(** [strftime] is [time.strftime("%H:%M:%S", time.localtime(t))]. *)
Definition ui_log_tail (strftime : Z -> string) (w : World) (n : Z)
  : string * World :=
  let '(lines, w') := ui_log_tail_lines w n in
  (String.concat newline
     (map (fun dl => (strftime (t dl) ++ "  " ++ raw dl)%string) lines),
   w').

(** *** Port autodetection (lines 80-88) *)

(** What [comports()] reports of one port. *)
Record PortInfo : Type := mkPort {
  device : string;
  description : option string;
  hwid : option string
}.

(** [needle in hay] *)
Fixpoint contains (needle hay : string) : bool :=
  prefix needle hay ||
  match hay with
  | EmptyString => false
  | String _ rest => contains needle rest
  end.

(** The test of line 86 on the lowered description. *)
Definition looks_like_usb_serial (desc : string) : bool :=
  contains "usb" desc || contains "cp210" desc || contains "ch340" desc
  || contains "uart" desc || contains "serial" desc.

(** [lower] is [str.lower]. *)
Definition autodetect_port (lower : string -> string) (ports : list PortInfo)
  : string :=
  let desc_of p :=
    lower (match description p with Some d => d | None => EmptyString end) in
  match find (fun p => looks_like_usb_serial (desc_of p)) ports with
  | Some p => device p
  | None =>
      match ports with
      | p :: _ => device p
      | [] => EmptyString
      end
  end.

(** ** Sample inputs

    Closed instances of the properties below are taken at these.  The sample
    library stands in for the real one: it strips nothing, reads every text
    as [sample_doc], converts no string to a number, loads a white image of
    one row and four columns, and leaves images and channel values as they
    are. *)

Module Sample.

Definition sample_doc : json :=
  JArr [ JInt 7;
         JObj [("idxNorm", JInt 70000); ("rgbMask", JInt 13)];
         JStr "dot";
         JObj [("idxNorm", JInt (-4)); ("rgbMask", JInt 2)] ].

Definition white_image : image :=
  [[(255, 255, 255); (255, 255, 255); (255, 255, 255); (255, 255, 255)]].

Definition sample_lib : Lib :=
  mkLib (fun s => s) (fun _ => inr sample_doc) (fun _ => None)
        (fun _ => white_image) (fun im _ => im) (fun _ v => v).

(** The same library with a resampling that gives one white row of the
    width asked for. *)
Definition resizing_lib : Lib :=
  mkLib (fun s => s) (fun _ => inr sample_doc) (fun _ => None)
        (fun _ => white_image)
        (fun _ new_w => [repeat (255, 255, 255) (Z.to_nat new_w)])
        (fun _ v => v).

(** The text [{"ok":true}] and the line the reader makes of it. *)
Definition dq : string := String (ascii_of_nat 34) EmptyString.

Definition ok_raw : string := ("{" ++ dq ++ "ok" ++ dq ++ ":true}")%string.

Definition ok_line (at_ms : Z) : DeviceLine :=
  mkLine at_ms ok_raw (Some (JObj [("ok", JBool true)])).

(** A line of boot chatter: no JSON. *)
Definition boot_line (at_ms : Z) : DeviceLine :=
  mkLine at_ms "ets Jul 29 2019 12:21:46" None.

Definition status_cmd : json := JObj [("cmd", JStr "status")].

(** [n] lines without JSON, the [k]-th framed at [k] ms. *)
Definition numbered_lines (n : Z) : list DeviceLine :=
  map (fun k => mkLine k "tick" None) (range n).

End Sample.

(** * Properties *)

(** ** Sorting by [idxNorm] *)

Lemma insert_by_idx_length (d : Dot) (l : list Dot) :
  length (insert_by_idx d l) = S (length l).
Proof.
  induction l as [|x rest IH]; simpl; [reflexivity|].
  destruct (idxNorm d <=? idxNorm x); simpl; [reflexivity|].
  now rewrite IH.
Qed.

Lemma sort_by_idx_length (l : list Dot) :
  length (sort_by_idx l) = length l.
Proof.
  induction l as [|d rest IH]; simpl; [reflexivity|].
  now rewrite insert_by_idx_length, IH.
Qed.

Lemma insert_by_idx_count (m : Z) (d : Dot) (l : list Dot) :
  count_mask m (insert_by_idx d l) = count_mask m (d :: l).
Proof.
  unfold count_mask.
  induction l as [|x rest IH]; simpl; [reflexivity|].
  destruct (idxNorm d <=? idxNorm x); simpl; [reflexivity|].
  destruct (rgbMask x =? m); simpl in *; rewrite IH;
    destruct (rgbMask d =? m); reflexivity.
Qed.

Lemma sort_by_idx_count (m : Z) (l : list Dot) :
  count_mask m (sort_by_idx l) = count_mask m l.
Proof.
  induction l as [|d rest IH]; simpl; [reflexivity|].
  rewrite insert_by_idx_count.
  unfold count_mask in *; simpl.
  destruct (rgbMask d =? m); simpl; now rewrite IH.
Qed.

Lemma insert_by_idx_in (d x : Dot) (l : list Dot) :
  In x (insert_by_idx d l) <-> x = d \/ In x l.
Proof.
  induction l as [|y rest IH]; simpl.
  - intuition congruence.
  - destruct (idxNorm d <=? idxNorm y); simpl; [intuition congruence|].
    rewrite IH. intuition congruence.
Qed.

Lemma sort_by_idx_in (x : Dot) (l : list Dot) :
  In x (sort_by_idx l) <-> In x l.
Proof.
  induction l as [|d rest IH]; simpl; [tauto|].
  rewrite insert_by_idx_in, IH. intuition congruence.
Qed.

Lemma insert_by_idx_ascending (d : Dot) (l : list Dot) :
  ascending l -> ascending (insert_by_idx d l).
Proof.
  unfold ascending.
  induction l as [|x rest IH]; intros Hs; simpl.
  - repeat constructor.
  - destruct (idxNorm d <=? idxNorm x) eqn:Hle.
    + constructor; [assumption|]. constructor. unfold idx_le. lia.
    + apply Sorted_inv in Hs as [Hrest Hhd].
      constructor; [now apply IH|].
      destruct rest as [|y rest']; simpl.
      * constructor. unfold idx_le. lia.
      * destruct (idxNorm d <=? idxNorm y); constructor.
        -- unfold idx_le. lia.
        -- now apply HdRel_inv in Hhd.
Qed.

Lemma sort_by_idx_ascending (l : list Dot) : ascending (sort_by_idx l).
Proof.
  induction l as [|d rest IH]; simpl.
  - constructor.
  - now apply insert_by_idx_ascending.
Qed.

Lemma ascending_firstn (k : nat) (l : list Dot) :
  ascending l -> ascending (firstn k l).
Proof.
  unfold ascending. revert l.
  induction k as [|k IH]; intros l Hs; simpl; [constructor|].
  destruct l as [|x rest]; [constructor|].
  apply Sorted_inv in Hs as [Hrest Hhd].
  constructor; [now apply IH|].
  destruct rest as [|y rest']; destruct k; simpl; constructor.
  now apply HdRel_inv in Hhd.
Qed.

Lemma ascending_slice_to (k : Z) (l : list Dot) :
  ascending l -> ascending (slice_to k l).
Proof.
  intros Hs. unfold slice_to.
  destruct (k <? 0); now apply ascending_firstn.
Qed.

Lemma ascendingb_sound (l : list Dot) : ascendingb l = true -> ascending l.
Proof.
  unfold ascending.
  induction l as [|x rest IH]; intros Hb; [constructor|].
  destruct rest as [|y rest'].
  - repeat constructor.
  - simpl in Hb. apply andb_true_iff in Hb as [Hxy Hrest].
    constructor; [now apply IH|].
    constructor. unfold idx_le. lia.
Qed.

(** ** Ranges *)

Lemma range_length (n : Z) : length (range n) = Z.to_nat n.
Proof.
  unfold range. now rewrite length_map, length_seq.
Qed.

Lemma range_in (n i : Z) : In i (range n) <-> 0 <= i < n.
Proof.
  unfold range. rewrite in_map_iff. split.
  - intros (k & <- & Hk). apply in_seq in Hk. lia.
  - intros Hi. exists (Z.to_nat i). split; [lia|]. apply in_seq. lia.
Qed.

(** A monotone position function over a range gives an ascending list. *)
Lemma ascending_map_seq (f : Z -> Z) (mask : Z) (len start : nat) :
  (forall i j, 0 <= i <= j -> f i <= f j) ->
  ascending (map (fun i => mkDot (f i) mask) (map Z.of_nat (seq start len))).
Proof.
  intros Hmono. unfold ascending. revert start.
  induction len as [|len IH]; intros start; simpl; [constructor|].
  constructor; [apply IH|].
  destruct len; simpl; constructor.
  unfold idx_le; simpl. apply Hmono. lia.
Qed.

Lemma ascending_map_range (f : Z -> Z) (mask n : Z) :
  (forall i j, 0 <= i <= j -> f i <= f j) ->
  ascending (map (fun i => mkDot (f i) mask) (range n)).
Proof.
  intros Hmono. unfold range. now apply ascending_map_seq.
Qed.

Lemma position_monotone (d i j : Z) :
  0 < d -> 0 <= i <= j -> Z.quot (i * 65535) d <= Z.quot (j * 65535) d.
Proof.
  intros Hd Hij.
  rewrite !Z.quot_div_nonneg by lia.
  apply Z.div_le_mono; lia.
Qed.

(** ** The generators *)

Lemma gen_line_length (g : Globals) (n rgb_mask : Z) :
  Z.of_nat (length (gen_line g n rgb_mask)) = Z.max 1 (Z.min (DOT_CAP g) n).
Proof.
  unfold gen_line.
  destruct (Z.max 1 (Z.min (DOT_CAP g) n) =? 1) eqn:E.
  - apply Z.eqb_eq in E. rewrite E. reflexivity.
  - rewrite length_map, range_length. lia.
Qed.

Lemma gen_line_ascending (g : Globals) (n rgb_mask : Z) :
  ascending (gen_line g n rgb_mask).
Proof.
  unfold gen_line.
  destruct (Z.max 1 (Z.min (DOT_CAP g) n) =? 1) eqn:E.
  - repeat constructor.
  - apply Z.eqb_neq in E.
    apply (ascending_map_range
             (fun i => Z.quot (i * 65535) (Z.max 1 (Z.min (DOT_CAP g) n) - 1))).
    intros i j Hij. apply position_monotone; lia.
Qed.

Lemma gen_line_mask (g : Globals) (n rgb_mask : Z) (d : Dot) :
  In d (gen_line g n rgb_mask) -> rgbMask d = Z.land rgb_mask 7.
Proof.
  unfold gen_line.
  destruct (Z.max 1 (Z.min (DOT_CAP g) n) =? 1).
  - intros [<-|[]]. reflexivity.
  - rewrite in_map_iff. intros (i & <- & _). reflexivity.
Qed.

Lemma gen_color_bars_unfold (g : Globals) (n_per_color : Z) :
  gen_color_bars g n_per_color =
  let n := Z.max 1 (Z.min (DOT_CAP g / 3) n_per_color) in
  slice_to (DOT_CAP g)
           (sort_by_idx (color_bar n 1 ++ color_bar n 2 ++ color_bar n 4)).
Proof. reflexivity. Qed.

Lemma color_bar_length (n mask : Z) :
  length (color_bar n mask) = Z.to_nat n.
Proof.
  unfold color_bar. now rewrite length_map, range_length.
Qed.

Lemma color_bar_count (n mask m : Z) :
  count_mask m (color_bar n mask) = if mask =? m then Z.to_nat n else 0%nat.
Proof.
  unfold count_mask, color_bar, range.
  rewrite <- (length_seq (Z.to_nat n) 0) at 2.
  generalize (seq 0 (Z.to_nat n)) as ks.
  induction ks as [|k ks IH]; simpl.
  - now destruct (mask =? m).
  - destruct (mask =? m); simpl; now rewrite IH.
Qed.

Lemma count_mask_app (m : Z) (a b : list Dot) :
  count_mask m (a ++ b) = (count_mask m a + count_mask m b)%nat.
Proof.
  unfold count_mask. now rewrite filter_app, length_app.
Qed.

Lemma gen_color_bars_ascending (g : Globals) (n_per_color : Z) :
  ascending (gen_color_bars g n_per_color).
Proof.
  rewrite gen_color_bars_unfold. cbv zeta.
  apply ascending_slice_to, sort_by_idx_ascending.
Qed.

Lemma slice_to_length {A : Type} (k : Z) (l : list A) :
  0 <= k -> Z.of_nat (length (slice_to k l)) <= k.
Proof.
  intros Hk. unfold slice_to.
  destruct (k <? 0) eqn:E; [lia|].
  pose proof (firstn_le_length (Z.to_nat k) l). lia.
Qed.

Lemma slice_to_all {A : Type} (k : Z) (l : list A) :
  Z.of_nat (length l) <= k -> slice_to k l = l.
Proof.
  intros Hk. unfold slice_to.
  destruct (k <? 0) eqn:E; [lia|].
  apply firstn_all2. lia.
Qed.

(** With room for one dot per colour nothing is cut off. *)
Lemma gen_color_bars_untruncated (g : Globals) (n_per_color : Z) :
  3 <= DOT_CAP g ->
  gen_color_bars g n_per_color =
  let n := Z.max 1 (Z.min (DOT_CAP g / 3) n_per_color) in
  sort_by_idx (color_bar n 1 ++ color_bar n 2 ++ color_bar n 4).
Proof.
  intros Hcap. rewrite gen_color_bars_unfold. cbv zeta.
  apply slice_to_all.
  rewrite sort_by_idx_length, !length_app, !color_bar_length.
  assert (1 <= DOT_CAP g / 3) by (apply Z.div_le_lower_bound; lia).
  assert (3 * (DOT_CAP g / 3) <= DOT_CAP g)
    by (apply Z.mul_div_le; lia).
  lia.
Qed.

Lemma gen_color_bars_length (g : Globals) (n : Z) :
  3 <= DOT_CAP g ->
  Z.of_nat (length (gen_color_bars g n))
  = 3 * Z.max 1 (Z.min (DOT_CAP g / 3) n).
Proof.
  intros Hcap. rewrite gen_color_bars_untruncated by assumption. cbv zeta.
  rewrite sort_by_idx_length, !length_app, !color_bar_length. lia.
Qed.

Lemma gen_color_bars_count (g : Globals) (n m : Z) :
  3 <= DOT_CAP g ->
  count_mask m (gen_color_bars g n)
  = let n' := Z.max 1 (Z.min (DOT_CAP g / 3) n) in
    (count_mask m (color_bar n' 1) + count_mask m (color_bar n' 2)
     + count_mask m (color_bar n' 4))%nat.
Proof.
  intros Hcap. rewrite gen_color_bars_untruncated by assumption. cbv zeta.
  rewrite sort_by_idx_count, !count_mask_app. lia.
Qed.

Lemma thirds_within (c : Z) : 3 <= c -> 1 <= c / 3 /\ 3 * (c / 3) <= c.
Proof.
  intros Hc. split.
  - apply Z.div_le_lower_bound; lia.
  - apply Z.mul_div_le; lia.
Qed.

(** C7. For every [n], with a capacity that has room for one dot per colour,
    [gen_color_bars n] yields [3 * n'] dots, where [n'] is [n] clamped to
    [1 .. capacity / 3]; that is within the capacity; the dots ascend by
    [idxNorm]; and exactly [n'] of them carry each of the masks 0b001, 0b010
    and 0b100. *)
Theorem gen_color_bars_three_runs (g : Globals) (n : Z) :
  3 <= DOT_CAP g ->
  let n' := Z.max 1 (Z.min (DOT_CAP g / 3) n) in
  let out := gen_color_bars g n in
  Z.of_nat (length out) = 3 * n' /\
  Z.of_nat (length out) <= DOT_CAP g /\
  ascending out /\
  Z.of_nat (count_mask 1 out) = n' /\
  Z.of_nat (count_mask 2 out) = n' /\
  Z.of_nat (count_mask 4 out) = n'.
Proof.
  intros Hcap n' out. subst out.
  pose proof (gen_color_bars_length g n Hcap) as Hlen. fold n' in Hlen.
  pose proof (thirds_within (DOT_CAP g) Hcap) as [H1 H3].
  repeat apply conj.
  - exact Hlen.
  - lia.
  - apply gen_color_bars_ascending.
  - rewrite gen_color_bars_count by assumption. cbv zeta.
    rewrite !color_bar_count. simpl. lia.
  - rewrite gen_color_bars_count by assumption. cbv zeta.
    rewrite !color_bar_count. simpl. lia.
  - rewrite gen_color_bars_count by assumption. cbv zeta.
    rewrite !color_bar_count. simpl. lia.
Qed.

Lemma gen_color_bars_three_runs_witness :
  3 <= DOT_CAP module_init /\
  Z.of_nat (length (gen_color_bars module_init 5000)) = 3 * 341 /\
  Z.of_nat (count_mask 2 (gen_color_bars module_init 5000)) = 341.
Proof.
  assert (H : 3 <= DOT_CAP module_init) by (simpl; lia).
  split; [exact H|].
  destruct (gen_color_bars_three_runs module_init 5000 H)
    as (Hlen & _ & _ & _ & Hg & _).
  split; [exact Hlen | exact Hg].
Defined.

(** ** Clamping and masking *)

Lemma clamped_max_min (x : Z) : clamped x (Z.max 0 (Z.min 65535 x)).
Proof. unfold clamped. lia. Qed.

Lemma low3_land (x : Z) : low3 x (Z.land x 7).
Proof.
  change 7 with (Z.ones 3). rewrite Z.land_ones by lia.
  split.
  - pose proof (Z.mod_pos_bound x (2 ^ 3)). lia.
  - intros i Hi. destruct (i <? 3) eqn:E; cbn [andb].
    + apply Z.mod_pow2_bits_low. lia.
    + apply Z.mod_pow2_bits_high. lia.
Qed.

(** ** The dot-list parser *)

Section Parser.

Variable L : Lib.

Lemma parse_entries_from (cap : Z) (items : list json) :
  forall acc dots,
    parse_entries L cap items acc = Ok dots ->
    forall d, In d dots ->
      In d acc \/ exists fields, In (JObj fields) items /\ stored_from L fields d.
Proof.
  induction items as [|v rest IH]; intros acc dots Hrun d Hd; simpl in Hrun.
  - left. congruence.
  - assert (Hskip : parse_entries L cap rest acc = Ok dots ->
              In d acc \/
              exists fields, In (JObj fields) (v :: rest) /\ stored_from L fields d).
    { intros H. destruct (IH _ _ H d Hd) as [Ha|(fields & Hin & Hst)];
        [now left|]. right. exists fields. split; [now right|assumption]. }
    destruct v as [| | | | | |fields]; try (now apply Hskip).
    clear Hskip.
    destruct (py_int L (dict_get fields "idxNorm" (JInt 0))) as [i| |] eqn:Ei;
      simpl in Hrun; try discriminate.
    destruct (py_int L (dict_get fields "rgbMask" (JInt 0))) as [m| |] eqn:Em;
      simpl in Hrun; try discriminate.
    set (new := mkDot (Z.max 0 (Z.min 65535 i)) (Z.land m 7)) in *.
    assert (Hnew : stored_from L fields new).
    { exists i, m. split; [assumption|]. split; [assumption|].
      split; [apply clamped_max_min | apply low3_land]. }
    assert (Hin : In d (acc ++ [new]) ->
              In d acc \/
              exists fields0, In (JObj fields0) (JObj fields :: rest) /\
                              stored_from L fields0 d).
    { intros H. apply in_app_or in H as [H|[<-|[]]]; [now left|].
      right. exists fields. split; [now left|assumption]. }
    destruct (Z.of_nat (length (acc ++ [new])) >=? cap).
    + injection Hrun as <-. now apply Hin.
    + destruct (IH _ _ Hrun d Hd) as [H|(fields0 & Hin0 & Hst)].
      * now apply Hin.
      * right. exists fields0. split; [now right|assumption].
Qed.

Lemma parse_entries_length (cap : Z) (items : list json) :
  forall acc dots,
    parse_entries L cap items acc = Ok dots ->
    Z.of_nat (length acc) < cap ->
    Z.of_nat (length dots) <= cap.
Proof.
  induction items as [|v rest IH]; intros acc dots Hrun Hacc; simpl in Hrun.
  - injection Hrun as <-. lia.
  - destruct v as [| | | | | |fields]; try (now apply (IH acc)).
    destruct (py_int L (dict_get fields "idxNorm" (JInt 0))) as [i| |];
      simpl in Hrun; try discriminate.
    destruct (py_int L (dict_get fields "rgbMask" (JInt 0))) as [m| |];
      simpl in Hrun; try discriminate.
    match type of Hrun with
    | context [Z.of_nat (length ?l) >=? cap] =>
        assert (Hl : Z.of_nat (length l) = Z.of_nat (length acc) + 1)
          by (rewrite length_app; simpl; lia);
        destruct (Z.of_nat (length l) >=? cap) eqn:E
    end.
    + injection Hrun as <-. lia.
    + apply (IH _ _ Hrun). lia.
Qed.

(** What [parse_dots_json] returns without raising is what
    [parse_dots_value] makes of a parsed document, or an empty list. *)
Lemma parse_dots_json_ok (g : Globals) (text : string)
    (dots : list Dot) (msg : string) :
  parse_dots_json L g text = Ok (dots, msg) ->
  dots = [] \/
  exists obj,
    json_loads L (str_strip L text) = inr obj /\
    parse_dots_value L g obj = Ok (dots, msg).
Proof.
  unfold parse_dots_json. intros H.
  destruct (String.eqb (str_strip L text) EmptyString).
  - left. congruence.
  - destruct (json_loads L (str_strip L text)) as [e|obj].
    + left. congruence.
    + right. now exists obj.
Qed.

Lemma parse_dots_value_ok (g : Globals) (obj : json)
    (dots : list Dot) (msg : string) :
  parse_dots_value L g obj = Ok (dots, msg) ->
  dots = [] \/
  exists items raw_dots,
    dots_field obj = JArr items /\
    parse_entries L (DOT_CAP g) items [] = Ok raw_dots /\
    dots = sort_by_idx raw_dots.
Proof.
  unfold parse_dots_value. intros H.
  destruct (dots_field obj) as [| | | | |items|]; try (left; congruence).
  right.
  destruct (parse_entries L (DOT_CAP g) items []) as [raw_dots| |] eqn:E;
    simpl in H; try discriminate.
  exists items, raw_dots. split; [reflexivity|]. split; [exact E|].
  congruence.
Qed.

End Parser.

(** C8. [gen_single_dot] stores, for every input, the position clamped into
    [0, 65535] and the mask cut to its three low bits; and every dot
    [parse_dots_json] returns was read from an entry of the parsed array
    whose two fields convert to integers, and holds that entry's position
    clamped into [0, 65535] and the three low bits of its mask. *)
Theorem stored_dots_clamped_and_masked :
  (forall idx_norm rgb_mask,
     exists d,
       gen_single_dot idx_norm rgb_mask = [d] /\
       clamped idx_norm (idxNorm d) /\ low3 rgb_mask (rgbMask d)) /\
  (forall L g text dots msg,
     parse_dots_json L g text = Ok (dots, msg) ->
     forall d, In d dots ->
       exists obj items fields,
         json_loads L (str_strip L text) = inr obj /\
         dots_field obj = JArr items /\
         In (JObj fields) items /\
         stored_from L fields d).
Proof.
  split.
  - intros idx_norm rgb_mask. eexists. split; [reflexivity|]. simpl.
    split; [apply clamped_max_min | apply low3_land].
  - intros L g text dots msg Hrun d Hd.
    apply parse_dots_json_ok in Hrun as [->|(obj & Hload & Hval)];
      [contradiction|].
    apply parse_dots_value_ok in Hval as [->|(items & raw_dots & Hf & Hp & ->)];
      [contradiction|].
    apply (proj1 (sort_by_idx_in d raw_dots)) in Hd.
    destruct (parse_entries_from L _ _ _ _ Hp d Hd) as [[]|(fields & Hin & Hst)].
    exists obj, items, fields. auto.
Qed.

Lemma stored_dots_clamped_and_masked_witness :
  parse_dots_json Sample.sample_lib module_init "[...]"
    = Ok ([mkDot 0 2; mkDot 65535 5], "ok (2 dots)") /\
  exists obj items fields,
    json_loads Sample.sample_lib (str_strip Sample.sample_lib "[...]") = inr obj /\
    dots_field obj = JArr items /\
    In (JObj fields) items /\
    stored_from Sample.sample_lib fields (mkDot 65535 5).
Proof.
  split; [reflexivity|].
  apply (proj2 stored_dots_clamped_and_masked
           Sample.sample_lib module_init "[...]"
           [mkDot 0 2; mkDot 65535 5] "ok (2 dots)" eq_refl).
  simpl. auto.
Defined.

(** ** The image line encoder *)

Lemma scan_pixels_nil (thr : Z) (line_u8 : list pixel) (W : Z) :
  scan_pixels thr line_u8 W = [].
Proof.
  unfold scan_pixels. generalize (@nil Dot) as acc.
  induction (range W) as [|x xs IH]; intros acc; simpl; [reflexivity|].
  destruct (pixel_mask thr (nth (Z.to_nat x) line_u8 (0, 0, 0)) =? 0);
    apply IH.
Qed.

Lemma image_line_to_dots_dots_nil (L : Lib) (dot_cap : Z) (image_path : string)
    (line_index : option Z) (threshold : Z) (gamma : Q) (serpentine : bool) :
  image_line_to_dots_dots L dot_cap image_path line_index threshold gamma
                          serpentine = [].
Proof.
  unfold image_line_to_dots_dots.
  destruct (prepared_line L dot_cap image_path line_index gamma serpentine).
  apply scan_pixels_nil.
Qed.

(** C3. With a capacity of at least one, every dot list that [gen_line],
    [gen_color_bars] or [parse_dots_json] returns ascends by [idxNorm] and
    is no longer than the capacity; the list [image_line_to_dots] has built
    when it returns ascends and is within its [dot_cap] as well. *)
Theorem dot_lists_ascending_and_capped (L : Lib) (g : Globals) :
  1 <= DOT_CAP g ->
  (forall n rgb_mask,
     ascending (gen_line g n rgb_mask) /\
     Z.of_nat (length (gen_line g n rgb_mask)) <= DOT_CAP g) /\
  (forall n,
     ascending (gen_color_bars g n) /\
     Z.of_nat (length (gen_color_bars g n)) <= DOT_CAP g) /\
  (forall text dots msg,
     parse_dots_json L g text = Ok (dots, msg) ->
     ascending dots /\ Z.of_nat (length dots) <= DOT_CAP g) /\
  (forall dot_cap image_path line_index threshold gamma serpentine,
     0 <= dot_cap ->
     let dots :=
       image_line_to_dots_dots L dot_cap image_path line_index threshold
                               gamma serpentine in
     ascending dots /\ Z.of_nat (length dots) <= dot_cap).
Proof.
  intros Hcap. repeat apply conj.
  - intros n rgb_mask. split; [apply gen_line_ascending|].
    rewrite gen_line_length. lia.
  - intros n. split; [apply gen_color_bars_ascending|].
    rewrite gen_color_bars_unfold. cbv zeta. apply slice_to_length. lia.
  - intros text dots msg Hrun.
    apply parse_dots_json_ok in Hrun as [->|(obj & _ & Hval)].
    { split; [constructor | simpl; lia]. }
    apply parse_dots_value_ok in Hval as [->|(items & raw_dots & _ & Hp & ->)].
    { split; [constructor | simpl; lia]. }
    split; [apply sort_by_idx_ascending|].
    rewrite sort_by_idx_length.
    apply (parse_entries_length L _ _ _ _ Hp). simpl. lia.
  - intros dot_cap image_path line_index threshold gamma serpentine Hc dots.
    subst dots. rewrite image_line_to_dots_dots_nil.
    split; [constructor | simpl; lia].
Qed.

Lemma dot_lists_ascending_and_capped_witness :
  1 <= DOT_CAP module_init /\
  ascending (gen_line module_init 2000 1) /\
  Z.of_nat (length (gen_line module_init 2000 1)) <= DOT_CAP module_init /\
  parse_dots_json Sample.sample_lib module_init "[...]"
    = Ok ([mkDot 0 2; mkDot 65535 5], "ok (2 dots)") /\
  ascending [mkDot 0 2; mkDot 65535 5] /\
  0 <= 4 /\
  ascending
    (image_line_to_dots_dots Sample.sample_lib 4 "white.png" None 0 1%Q false).
Proof.
  assert (H : 1 <= DOT_CAP module_init) by (simpl; lia).
  assert (H4 : 0 <= 4) by lia.
  destruct (dot_lists_ascending_and_capped Sample.sample_lib module_init H)
    as (Hline & _ & Hparse & Himage).
  split; [exact H|].
  split; [apply Hline|].
  split; [apply Hline|].
  split; [reflexivity|].
  split; [apply (Hparse "[...]" _ "ok (2 dots)" eq_refl)|].
  split; [exact H4|].
  apply (Himage 4 "white.png" None 0 1%Q false H4).
Defined.

Lemma image_line_to_dots_returns_status (L : Lib) (image_path : string)
    (line_index : option Z) (dot_cap : option Z) (threshold : Z) (gamma : Q)
    (serpentine : bool) :
  image_line_to_dots L module_init image_path line_index dot_cap threshold
                     gamma serpentine
  = Ok (RetDict [("status", JStr "autoscan_stopped")]).
Proof. reflexivity. Qed.

(** C1, at an all-white image of four columns, [dot_cap = 4], threshold 0:
    [image_line_to_dots] returns the one-key object
    [{"status": "autoscan_stopped"}], which is no pair [(dots, meta)]; each
    of the four pixels has mask 0b111, and the list of dots the function
    has built when it returns is empty instead of holding four dots. *)
Theorem image_line_to_dots_all_white_returns_status :
  let call :=
    image_line_to_dots Sample.sample_lib module_init "white.png" None (Some 4)
                       0 1%Q false in
  call = Ok (RetDict [("status", JStr "autoscan_stopped")]) /\
  (forall dots meta, call <> Ok (RetPair dots meta)) /\
  map (pixel_mask 0)
      (fst (prepared_line Sample.sample_lib 4 "white.png" None 1%Q false))
    = [7; 7; 7; 7] /\
  image_line_to_dots_dots Sample.sample_lib 4 "white.png" None 0 1%Q false
    = [].
Proof.
  cbv zeta. repeat apply conj.
  - reflexivity.
  - intros dots meta H. discriminate H.
  - reflexivity.
  - reflexivity.
Qed.

(** ** The two bindings of [DOT_CAP] *)

(** C10. [DOT_CAP] is 100 from line 46 on, also when the [def] of
    [image_line_to_dots] runs, and 1024 once the module is loaded.  Called
    then, [gen_line] yields [n] clamped to [1 .. 1024] dots, 1024 of them
    for every [n] from 1024 on, and [gen_color_bars] three times [n] clamped to
    [1 .. 341], at most 1024; a call of [image_line_to_dots] that leaves
    [dot_cap] out runs with [dot_cap = 100] and is the call with an explicit
    100; and the two capacities differ.  What the call runs on shows in its
    local [scaled]: without [dot_cap] the image is scaled to width 100, and
    with a library whose resampling gives the width asked for, a white image
    four columns wide comes out 100 columns wide, whereas the call with the
    generators' capacity makes it 1024 columns wide. *)
Theorem dot_cap_rebound_after_defaults :
  DOT_CAP (globals_after 1) = 100 /\
  DOT_CAP (globals_after 2) = 100 /\
  DOT_CAP module_init = 1024 /\
  (forall n rgb_mask,
     Z.of_nat (length (gen_line module_init n rgb_mask))
     = Z.max 1 (Z.min 1024 n)) /\
  (forall n rgb_mask,
     length (gen_line module_init (Z.max 1024 n) rgb_mask) = 1024%nat) /\
  (forall n,
     Z.of_nat (length (gen_color_bars module_init n))
     = 3 * Z.max 1 (Z.min 341 n)) /\
  (forall n, Z.of_nat (length (gen_color_bars module_init n)) <= 1024) /\
  bound_dot_cap module_init None = Some 100 /\
  (forall L image_path line_index threshold gamma serpentine,
     image_line_to_dots L module_init image_path line_index None threshold
                        gamma serpentine
     = image_line_to_dots L module_init image_path line_index (Some 100)
                          threshold gamma serpentine) /\
  bound_dot_cap module_init None <> Some (DOT_CAP module_init) /\
  (forall L image_path line_index threshold gamma serpentine,
     image_line_to_dots_call L module_init image_path line_index None
                             threshold gamma serpentine
     = image_line_to_dots_call L module_init image_path line_index (Some 100)
                               threshold gamma serpentine) /\
  (forall L image_path line_index threshold gamma serpentine,
     exists dots,
       image_line_to_dots_call L module_init image_path line_index None
                               threshold gamma serpentine
       = Ok (_scale_image_for_dots L (img_to_rgb_array L image_path) 100,
             dots, RetDict [("status", JStr "autoscan_stopped")])) /\
  (exists scaled_default scaled_generators dots dots',
     image_line_to_dots_call Sample.resizing_lib module_init "white.png" None
                             None 32 1%Q false
     = Ok (scaled_default, dots,
           RetDict [("status", JStr "autoscan_stopped")]) /\
     image_line_to_dots_call Sample.resizing_lib module_init "white.png" None
                             (Some (DOT_CAP module_init)) 32 1%Q false
     = Ok (scaled_generators, dots',
           RetDict [("status", JStr "autoscan_stopped")]) /\
     width scaled_default = 100 /\
     width scaled_generators = 1024).
Proof.
  repeat apply conj; try reflexivity.
  - intros n rgb_mask. apply gen_line_length.
  - intros n rgb_mask.
    pose proof (gen_line_length module_init (Z.max 1024 n) rgb_mask) as H.
    change (DOT_CAP module_init) with 1024 in H. lia.
  - intros n. apply (gen_color_bars_length module_init n). simpl. lia.
  - intros n.
    assert (H : 3 <= DOT_CAP module_init) by (simpl; lia).
    rewrite (gen_color_bars_length module_init n H).
    change (DOT_CAP module_init / 3) with 341. lia.
  - discriminate.
  - intros L image_path line_index threshold gamma serpentine.
    eexists. reflexivity.
  - eexists. eexists. eexists. eexists.
    split; [reflexivity|]. split; [reflexivity|].
    split; vm_compute; reflexivity.
Qed.

(** ** Entries the parser cannot convert *)

(** An entry that is not an object is passed over. *)
Lemma parse_entries_skips_non_object (L : Lib) (cap : Z) (v : json)
    (rest : list json) (acc : list Dot) :
  (forall fields, v <> JObj fields) ->
  parse_entries L cap (v :: rest) acc = parse_entries L cap rest acc.
Proof.
  intros Hv. destruct v; try reflexivity. now destruct (Hv fields).
Qed.

(** An object entry whose [idxNorm] does not convert ends the loop with the
    exception of the conversion, whatever was collected and whatever
    follows. *)
Lemma parse_entries_raises (L : Lib) (cap : Z) (fields : list (string * json))
    (rest : list json) (acc : list Dot) (e : exn) :
  py_int L (dict_get fields "idxNorm" (JInt 0)) = Raise e ->
  parse_entries L cap (JObj fields :: rest) acc = Raise e.
Proof.
  intros H. simpl. now rewrite H.
Qed.

(** The exception leaves [parse_dots_json] and [ui_upload_and_swap]. *)
Lemma parse_dots_json_raises (L : Lib) (g : Globals) (text : string)
    (fields : list (string * json)) (rest : list json) (e : exn) :
  str_strip L text <> EmptyString ->
  json_loads L (str_strip L text) = inr (JArr (JObj fields :: rest)) ->
  py_int L (dict_get fields "idxNorm" (JInt 0)) = Raise e ->
  parse_dots_json L g text = Raise e /\
  forall fuel w do_swap, ui_upload_and_swap L g fuel w text do_swap = Raise e.
Proof.
  intros Hne Hload Hbad.
  assert (H : parse_dots_json L g text = Raise e).
  { unfold parse_dots_json.
    destruct (String.eqb_spec (str_strip L text) EmptyString); [contradiction|].
    rewrite Hload. unfold parse_dots_value. simpl dots_field. cbv iota.
    now rewrite (parse_entries_raises L _ _ _ _ e Hbad). }
  split; [exact H|].
  intros fuel w do_swap. unfold ui_upload_and_swap. now rewrite H.
Qed.

(** C4, at the array [[{"idxNorm": null, "rgbMask": 1},
    {"idxNorm": 5, "rgbMask": 1}]]: the parser raises [TypeError] and
    returns no list, although the second entry is well formed; with the
    number 7 in place of the first entry it returns the second entry's
    dot. *)
Theorem parse_dots_bad_field_rejects_list (L : Lib) :
  let bad := JObj [("idxNorm", JNull); ("rgbMask", JInt 1)] in
  let good := JObj [("idxNorm", JInt 5); ("rgbMask", JInt 1)] in
  parse_dots_value L module_init (JArr [bad; good]) = Raise TypeError /\
  parse_dots_value L module_init (JArr [JInt 7; good])
    = Ok ([mkDot 5 1], "ok (1 dots)").
Proof.
  split; reflexivity.
Qed.

(** ** The receive queue *)

Lemma publish_not_full (q : list DeviceLine) (dl : DeviceLine) :
  (length q < 1000)%nat -> publish q dl = q ++ [dl].
Proof.
  intros Hq. unfold publish, put_nowait, RXQ_MAXSIZE.
  destruct (Z.of_nat (length q) <? 1000) eqn:E; [reflexivity|lia].
Qed.

Lemma publish_full (x : DeviceLine) (q : list DeviceLine) (dl : DeviceLine) :
  length (x :: q) = 1000%nat -> publish (x :: q) dl = q ++ [dl].
Proof.
  intros Hq. unfold publish, put_nowait, RXQ_MAXSIZE.
  destruct (Z.of_nat (length (x :: q)) <? 1000) eqn:E; [lia|].
  simpl get_nowait. cbv iota beta.
  destruct (Z.of_nat (length q) <? 1000) eqn:E'; [reflexivity|].
  simpl length in Hq. lia.
Qed.

(** The publisher's line always ends up at the tail of the queue. *)
Lemma publish_enqueues (q : list DeviceLine) (dl : DeviceLine) :
  (length q <= 1000)%nat -> exists q', publish q dl = q' ++ [dl].
Proof.
  intros Hq.
  destruct (Nat.eq_dec (length q) 1000) as [E|E].
  - destruct q as [|x q]; [discriminate|].
    exists q. now apply publish_full.
  - exists q. apply publish_not_full. lia.
Qed.

Lemma publish_length (q : list DeviceLine) (dl : DeviceLine) :
  (length q <= 1000)%nat ->
  length (publish q dl) = Nat.min 1000 (S (length q)).
Proof.
  intros Hq.
  destruct (Nat.eq_dec (length q) 1000) as [E|E].
  - destruct q as [|x q]; [discriminate|].
    rewrite publish_full by assumption.
    rewrite length_app. simpl length in *. lia.
  - rewrite publish_not_full by lia.
    rewrite length_app. simpl length. lia.
Qed.

(** Publishing a run of lines keeps the most recent thousand. *)
Lemma publish_all_keeps_recent (ls : list DeviceLine) :
  forall q,
    (length q <= 1000)%nat ->
    fold_left publish ls q
    = skipn (length q + length ls - 1000) (q ++ ls).
Proof.
  induction ls as [|dl ls IH]; intros q Hq; simpl fold_left.
  - rewrite app_nil_r.
    replace (length q + length (@nil DeviceLine) - 1000)%nat with 0%nat
      by (simpl; lia).
    reflexivity.
  - rewrite IH by (rewrite publish_length by assumption; lia).
    rewrite publish_length by assumption.
    destruct (Nat.eq_dec (length q) 1000) as [E|E].
    + destruct q as [|x q]; [discriminate|].
      rewrite publish_full by assumption.
      rewrite <- app_assoc. simpl app.
      replace (length (x :: q) + length (dl :: ls) - 1000)%nat
        with (S (length ls)) by (simpl length in *; lia).
      replace (Nat.min 1000 (S (length (x :: q))) + length ls - 1000)%nat
        with (length ls) by (simpl length in *; lia).
      reflexivity.
    + rewrite publish_not_full by lia.
      rewrite <- app_assoc. simpl app.
      f_equal. simpl length. lia.
Qed.

Lemma drain_all (q items : list DeviceLine) : drain q items = items ++ q.
Proof.
  revert items. induction q as [|x q IH]; intros items; simpl.
  - now rewrite app_nil_r.
  - rewrite IH, <- app_assoc. reflexivity.
Qed.

Lemma put_back_all (items : list DeviceLine) :
  forall q,
    (length q + length items <= 1000)%nat -> put_back q items = q ++ items.
Proof.
  induction items as [|it items IH]; intros q Hlen; simpl.
  - now rewrite app_nil_r.
  - unfold put_nowait, RXQ_MAXSIZE.
    destruct (Z.of_nat (length q) <? 1000) eqn:E; [|simpl length in Hlen; lia].
    rewrite IH by (rewrite length_app; simpl length in *; lia).
    now rewrite <- app_assoc.
Qed.

Lemma deliver_nothing (now : Z) (q : list DeviceLine) :
  deliver now q [] = (q, []).
Proof. reflexivity. Qed.

(** A snapshot of a settled queue returns its tail and puts everything
    back. *)
Lemma get_recent_lines_settled (w : World) (max_lines : Z) :
  incoming w = [] ->
  (length (rxq w) <= 1000)%nat ->
  get_recent_lines w max_lines
  = (slice_from (- max_lines) (rxq w),
     mkWorld (now w) (ser_open w) (tx w) (rxq w) []).
Proof.
  intros Hinc Hlen. unfold get_recent_lines.
  rewrite Hinc, deliver_nothing, drain_all. simpl app.
  rewrite put_back_all by (simpl; lia). reflexivity.
Qed.

(** C6. When 1001 lines are published into the empty receive queue and
    nothing is taken out, the queue holds exactly the last 1000 of them in
    order, the first one is gone, a snapshot of 1000 lines returns them and
    leaves them in the queue, and every publication, built from
    non-blocking calls only, put its line at the tail of the queue. *)
Theorem overflow_keeps_last_thousand (ls : list DeviceLine) :
  length ls = 1001%nat ->
  let q := fold_left publish ls [] in
  q = skipn 1 ls /\
  length q = 1000%nat /\
  (forall clock written,
     get_recent_lines (mkWorld clock true written q []) 1000
     = (skipn 1 ls, mkWorld clock true written (skipn 1 ls) [])) /\
  (forall before dl after,
     ls = before ++ dl :: after ->
     exists q', fold_left publish (before ++ [dl]) [] = q' ++ [dl]).
Proof.
  intros Hlen q.
  assert (Hq : q = skipn 1 ls).
  { subst q. rewrite publish_all_keeps_recent by (simpl; lia).
    simpl app. simpl length. rewrite Hlen. reflexivity. }
  assert (Hql : length q = 1000%nat).
  { rewrite Hq, length_skipn. lia. }
  repeat apply conj.
  - exact Hq.
  - exact Hql.
  - intros clock written.
    rewrite get_recent_lines_settled by (simpl rxq; try reflexivity; lia).
    simpl rxq. simpl now. simpl ser_open. simpl tx. rewrite Hq.
    f_equal.
    unfold slice_from. change (- (1000) <? 0) with true. cbv iota.
    rewrite length_skipn, Hlen. reflexivity.
  - intros before dl after Hsplit.
    rewrite fold_left_app. simpl fold_left.
    apply publish_enqueues.
    rewrite publish_all_keeps_recent by (simpl; lia).
    rewrite length_skipn. simpl length.
    assert (length before <= 1000)%nat.
    { rewrite Hsplit, length_app in Hlen. simpl length in Hlen. lia. }
    lia.
Qed.

Lemma overflow_keeps_last_thousand_witness :
  let ls := Sample.numbered_lines 1001 in
  length ls = 1001%nat /\
  fold_left publish ls [] = skipn 1 ls /\
  ls = Sample.numbered_lines 1000 ++ mkLine 1000 "tick" None :: [] /\
  exists q',
    fold_left publish (Sample.numbered_lines 1000 ++ [mkLine 1000 "tick" None])
              []
    = q' ++ [mkLine 1000 "tick" None].
Proof.
  cbv zeta.
  assert (H : length (Sample.numbered_lines 1001) = 1001%nat)
    by (vm_compute; reflexivity).
  assert (Hsplit : Sample.numbered_lines 1001
                   = Sample.numbered_lines 1000 ++ mkLine 1000 "tick" None :: [])
    by (vm_compute; reflexivity).
  destruct (overflow_keeps_last_thousand (Sample.numbered_lines 1001) H)
    as (Hq & _ & _ & Htail).
  split; [exact H|].
  split; [exact Hq|].
  split; [exact Hsplit|].
  exact (Htail _ _ _ Hsplit).
Defined.

(** ** The reply wait *)

Lemma publish_in (q : list DeviceLine) (dl x : DeviceLine) :
  In x (publish q dl) -> x = dl \/ In x q.
Proof.
  unfold publish, put_nowait.
  destruct (Z.of_nat (length q) <? RXQ_MAXSIZE).
  - intros H. apply in_app_or in H as [H|[<-|[]]]; auto.
  - destruct q as [|y q]; simpl get_nowait; cbv iota beta.
    + destruct (Z.of_nat (length (@nil DeviceLine)) <? RXQ_MAXSIZE).
      * intros H. apply in_app_or in H as [H|[<-|[]]]; auto.
      * auto.
    + destruct (Z.of_nat (length q) <? RXQ_MAXSIZE).
      * intros H. apply in_app_or in H as [H|[<-|[]]]; auto. right. now right.
      * intros H. right. now right.
Qed.

Lemma publish_length_le (q : list DeviceLine) (dl : DeviceLine) :
  (length (publish q dl) <= S (length q))%nat.
Proof.
  unfold publish, put_nowait.
  destruct (Z.of_nat (length q) <? RXQ_MAXSIZE).
  - rewrite length_app. simpl length. lia.
  - destruct q as [|y q]; simpl get_nowait; cbv iota beta.
    + destruct (Z.of_nat (length (@nil DeviceLine)) <? RXQ_MAXSIZE).
      * rewrite length_app. simpl length. lia.
      * simpl length. lia.
    + destruct (Z.of_nat (length q) <? RXQ_MAXSIZE).
      * rewrite length_app. simpl length. lia.
      * simpl length. lia.
Qed.

(** What the reader thread has done by [now]. *)
Lemma deliver_spec (now : Z) (inc : list DeviceLine) :
  forall q q' inc',
    deliver now q inc = (q', inc') ->
    (length q' + length inc' <= length q + length inc)%nat /\
    (forall x, In x q' -> In x q \/ (In x inc /\ t x <= now)) /\
    (forall x, In x inc' -> In x inc) /\
    (forall dl later, inc' = dl :: later -> now < t dl).
Proof.
  induction inc as [|dl inc IH]; intros q q' inc' H; simpl in H.
  - injection H as <- <-. repeat apply conj; auto; try discriminate.
  - destruct (t dl <=? now) eqn:E.
    + destruct (IH _ _ _ H) as (Hlen & Hq & Hinc & Hnext).
      pose proof (publish_length_le q dl).
      repeat apply conj.
      * simpl length. lia.
      * intros x Hx. destruct (Hq x Hx) as [Hp|[Hi Ht]].
        -- apply publish_in in Hp as [->|Hp]; [|now left].
           right. split; [now left|lia].
        -- right. split; [now right|assumption].
      * intros x Hx. right. now apply Hinc.
      * exact Hnext.
    + injection H as <- <-. repeat apply conj; auto.
      intros d later Heq. injection Heq as <- <-. lia.
Qed.

Lemma slots_step (deadline now : Z) :
  now < deadline ->
  (S (Z.to_nat ((deadline - (now + POLL_MS) + POLL_MS - 1) / POLL_MS))
   <= Z.to_nat ((deadline - now + POLL_MS - 1) / POLL_MS))%nat.
Proof.
  unfold POLL_MS. intros H.
  replace (deadline - (now + 50) + 50 - 1) with (deadline - now + 49 + (-1) * 50)
    by lia.
  rewrite Z.div_add by lia.
  replace (deadline - now + 50 - 1) with (deadline - now + 49) by lia.
  assert (1 <= (deadline - now + 49) / 50)
    by (apply Z.div_le_lower_bound; lia).
  lia.
Qed.

Lemma slots_mono (deadline now now' : Z) :
  now <= now' ->
  (Z.to_nat ((deadline - now' + POLL_MS - 1) / POLL_MS)
   <= Z.to_nat ((deadline - now + POLL_MS - 1) / POLL_MS))%nat.
Proof.
  unfold POLL_MS. intros H.
  assert ((deadline - now' + 50 - 1) / 50 <= (deadline - now + 50 - 1) / 50)
    by (apply Z.div_le_mono; lia).
  lia.
Qed.

(** One poll begun before the deadline: it brings the wait nearer to its
    end, lasts at most one poll interval, touches neither the link nor the
    log of written payloads, and hands out only a line that was buffered or
    is published before the poll ends. *)
Lemma queue_get_spec (deadline : Z) (w w' : World) (r : option DeviceLine) :
  now w < deadline ->
  queue_get POLL_MS w = (r, w') ->
  (wait_measure deadline w' < wait_measure deadline w)%nat /\
  now w <= now w' <= now w + POLL_MS /\
  tx w' = tx w /\
  ser_open w' = ser_open w /\
  (forall x, In x (rxq w') ->
             In x (rxq w) \/ (In x (incoming w) /\ t x <= now w)) /\
  (forall x, In x (incoming w') -> In x (incoming w)) /\
  (forall dl, r = Some dl ->
              In dl (rxq w) \/
              (In dl (incoming w) /\ t dl < now w + POLL_MS)).
Proof.
  intros Hnow Hget. unfold queue_get in Hget.
  destruct (deliver (now w) (rxq w) (incoming w)) as [q inc] eqn:Hdel.
  destruct (deliver_spec _ _ _ _ _ Hdel) as (Hlen & Hq & Hinc & Hnext).
  unfold wait_measure.
  destruct q as [|x rest].
  - destruct inc as [|dl later].
    + injection Hget as <- <-. simpl.
      pose proof (slots_step deadline (now w) Hnow).
      unfold POLL_MS in *.
      repeat apply conj; try reflexivity; try lia;
        try (intros ? ?; discriminate); try (intros ? Hnil; simpl in Hnil; contradiction).
    + pose proof (Hnext dl later eq_refl) as Hlate.
      destruct (t dl <? now w + POLL_MS) eqn:E.
      * injection Hget as <- <-. simpl.
        pose proof (slots_mono deadline (now w) (t dl)).
        simpl length in Hlen. unfold POLL_MS in *.
        repeat apply conj; try reflexivity; try lia;
          try (intros ? Hnil; simpl in Hnil; contradiction).
        -- intros x Hx. apply Hinc. now right.
        -- intros d Hd. injection Hd as <-. right.
           split; [apply Hinc; now left | lia].
      * injection Hget as <- <-. simpl.
        pose proof (slots_step deadline (now w) Hnow).
        simpl length in Hlen. unfold POLL_MS in *.
        repeat apply conj; try reflexivity; try lia;
          try (intros ? ?; discriminate); try (intros ? Hnil; simpl in Hnil; contradiction).
        intros x Hx. now apply Hinc.
  - injection Hget as <- <-. simpl.
    simpl length in Hlen. unfold POLL_MS in *.
    repeat apply conj; try reflexivity; try lia.
    + intros y Hy. apply Hq. now right.
    + exact Hinc.
    + intros d Hd. injection Hd as <-.
      destruct (Hq x (or_introl eq_refl)) as [H|[H Ht]]; [now left|].
      right. split; [assumption|lia].
Qed.

(** With the fuel of [wait_fuel], or more, the wait returns a line. *)
Lemma wait_json_loop_returns (fuel : nat) :
  forall deadline w,
    (wait_measure deadline w < fuel)%nat ->
    exists dl w', wait_json_loop fuel deadline w = Ok (dl, w').
Proof.
  induction fuel as [|fuel IH]; intros deadline w Hfuel; [lia|].
  simpl. destruct (now w <? deadline) eqn:Hnow; [|eauto].
  apply Z.ltb_lt in Hnow.
  destruct (queue_get POLL_MS w) as [r w'] eqn:Hget.
  destruct (queue_get_spec deadline _ _ _ Hnow Hget) as (Hm & _).
  destruct r as [dl|].
  - destruct (obj dl); [eauto|]. apply IH. lia.
  - apply IH. lia.
Qed.


(** C2, at a buffer holding a line of boot chatter and then the line
    [{"ok":true}]: before the send the log view shows both lines; the send
    returns the JSON line; afterwards the queue is empty and the log view
    shows nothing, so the skipped chatter line is no longer retrievable. *)
Theorem send_json_discards_skipped_lines :
  let w := mkWorld 0 true [] [Sample.boot_line 0; Sample.ok_line 0] [] in
  fst (get_recent_lines w 200) = [Sample.boot_line 0; Sample.ok_line 0] /\
  exists w',
    send_json (wait_fuel (now w + 1000) w) w Sample.status_cmd true 1000
    = Ok (Sample.ok_line 0, w') /\
    rxq w' = [] /\
    fst (get_recent_lines w' 200) = [] /\
    ~ In (Sample.boot_line 0) (fst (get_recent_lines w' 200)).
Proof.
  cbv zeta. split; [reflexivity|].
  eexists. split; [vm_compute; reflexivity|].
  split; [reflexivity|]. split; [reflexivity|].
  intros [].
Qed.

(** C5 as stated fails: with the default timeout of 1 s, a chatter line at
    30 ms and the line [{"ok":true}] at 1010 ms, no JSON line is queued
    before the timeout has elapsed, yet the poll begun at 980 ms is still
    waiting at 1010 ms and [send_json] returns the device's line, not the
    timeout marker. *)
Lemma send_json_reply_after_timeout :
  let w :=
    mkWorld 0 true [] [] [Sample.boot_line 30; Sample.ok_line 1010] in
  ser_open w = true /\
  no_json_before (now w + 1000) w /\
  send_json (wait_fuel (now w + 1000) w) w Sample.status_cmd true 1000
  = Ok (Sample.ok_line 1010, mkWorld 1010 true [Sample.status_cmd] [] []) /\
  obj (Sample.ok_line 1010) <> Some timeout_obj.
Proof.
  cbv zeta. split; [reflexivity|]. split; [|split].
  - split; simpl.
    + intros dl [].
    + intros dl [<-|[<-|[]]] Hlt; [reflexivity|]. simpl in Hlt. lia.
  - vm_compute. reflexivity.
  - discriminate.
Qed.

(** *** The wait on a link that takes its time *)

Lemma queue_get_env_ideal (timeout : Z) (w : World) :
  queue_get_env 0 timeout w = queue_get timeout w.
Proof.
  unfold queue_get_env, queue_get.
  destruct (deliver (now w) (rxq w) (incoming w)) as [q inc].
  destruct q as [|x rest]; [|now rewrite Z.add_0_r].
  destruct inc as [|dl later]; [now rewrite !Z.add_0_r|].
  rewrite !Z.add_0_r.
  destruct (t dl <? now w + timeout) eqn:E; [|reflexivity].
  apply Z.ltb_lt in E. rewrite Z.min_l by lia. reflexivity.
Qed.

Lemma wait_json_loop_env_ideal (fuel : nat) :
  forall k deadline w,
    wait_json_loop_env (fun _ => 0) k fuel deadline w
    = wait_json_loop fuel deadline w.
Proof.
  induction fuel as [|fuel IH]; intros k deadline w; [reflexivity|].
  simpl. rewrite queue_get_env_ideal.
  destruct (now w <? deadline); [|reflexivity].
  destruct (queue_get POLL_MS w) as [[dl|] w'];
    [destruct (obj dl)|]; try reflexivity; apply IH.
Qed.

(** On the ideal link the send is [send_json]. *)
Lemma send_json_env_ideal (fuel : nat) (w : World) (payload : json)
    (wait_json : bool) (timeout_ms : Z) :
  send_json_env ideal_env fuel w payload wait_json timeout_ms
  = send_json fuel w payload wait_json timeout_ms.
Proof.
  unfold send_json_env, send_json, ideal_env. cbn [write_error write_ms late].
  rewrite Z.add_0_r.
  destruct (negb (ser_open w)); [reflexivity|]. cbv zeta.
  destruct (negb wait_json); [reflexivity|].
  apply wait_json_loop_env_ideal.
Qed.

(** One poll begun before the deadline and ending [lateness] late: it
    brings the wait nearer to its end, ends no later than one poll interval
    and its lateness after it began, touches neither the link nor the log
    of written payloads, adds no line, and hands out only a line that was
    buffered or is published before the poll ends. *)
Lemma queue_get_env_spec (deadline lateness : Z) (w w' : World)
    (r : option DeviceLine) :
  now w < deadline ->
  0 <= lateness ->
  queue_get_env lateness POLL_MS w = (r, w') ->
  (wait_measure deadline w' < wait_measure deadline w)%nat /\
  now w <= now w' <= now w + POLL_MS + lateness /\
  tx w' = tx w /\
  ser_open w' = ser_open w /\
  (length (rxq w') + length (incoming w')
   <= length (rxq w) + length (incoming w))%nat /\
  (forall x, In x (rxq w') ->
             In x (rxq w) \/ (In x (incoming w) /\ t x <= now w)) /\
  (forall x, In x (incoming w') -> In x (incoming w)) /\
  (forall dl, r = Some dl ->
              In dl (rxq w) \/
              (In dl (incoming w) /\ t dl < now w + POLL_MS + lateness)).
Proof.
  intros Hnow Hlate Hget. unfold queue_get_env in Hget.
  destruct (deliver (now w) (rxq w) (incoming w)) as [q inc] eqn:Hdel.
  destruct (deliver_spec _ _ _ _ _ Hdel) as (Hlen & Hq & Hinc & Hnext).
  unfold wait_measure.
  destruct q as [|x rest].
  - destruct inc as [|dl later].
    + injection Hget as <- <-. simpl.
      pose proof (slots_step deadline (now w) Hnow).
      pose proof (slots_mono deadline (now w + POLL_MS)
                             (now w + POLL_MS + lateness)).
      unfold POLL_MS in *.
      repeat apply conj; try reflexivity; try lia;
        try (intros ? ?; discriminate);
        try (intros ? Hnil; simpl in Hnil; contradiction).
    + pose proof (Hnext dl later eq_refl) as Hafter.
      destruct (t dl <? now w + POLL_MS + lateness) eqn:E.
      * injection Hget as <- <-. simpl.
        pose proof (slots_mono deadline (now w)
                               (Z.min (t dl) (now w + POLL_MS) + lateness)).
        simpl length in Hlen. unfold POLL_MS in *.
        repeat apply conj; try reflexivity; try lia;
          try (intros ? Hnil; simpl in Hnil; contradiction).
        -- intros x Hx. apply Hinc. now right.
        -- intros d Hd. injection Hd as <-. right.
           split; [apply Hinc; now left | lia].
      * injection Hget as <- <-. simpl.
        pose proof (slots_step deadline (now w) Hnow).
        pose proof (slots_mono deadline (now w + POLL_MS)
                               (now w + POLL_MS + lateness)).
        simpl length in Hlen. unfold POLL_MS in *.
        repeat apply conj; try reflexivity; try lia;
          try (intros ? ?; discriminate);
          try (intros ? Hnil; simpl in Hnil; contradiction).
        intros x Hx. now apply Hinc.
  - injection Hget as <- <-. simpl.
    pose proof (slots_mono deadline (now w) (now w + lateness)).
    simpl length in Hlen. unfold POLL_MS in *.
    repeat apply conj; try reflexivity; try lia.
    + intros y Hy. apply Hq. now right.
    + exact Hinc.
    + intros d Hd. injection Hd as <-.
      destruct (Hq x (or_introl eq_refl)) as [Hx|[Hx Ht]]; [now left|].
      right. split; [assumption|lia].
Qed.

(** With the fuel of [wait_fuel], or more, the wait returns a line, however
    late its polls come back. *)
Lemma wait_json_loop_env_returns (late : nat -> Z) (fuel : nat) :
  (forall k, 0 <= late k) ->
  forall k deadline w,
    (wait_measure deadline w < fuel)%nat ->
    exists dl w', wait_json_loop_env late k fuel deadline w = Ok (dl, w').
Proof.
  intros Hlate.
  induction fuel as [|fuel IH]; intros k deadline w Hfuel; [lia|].
  simpl. destruct (now w <? deadline) eqn:Hnow; [|eauto].
  apply Z.ltb_lt in Hnow.
  destruct (queue_get_env (late k) POLL_MS w) as [r w'] eqn:Hget.
  destruct (queue_get_env_spec deadline _ _ _ _ Hnow (Hlate k) Hget)
    as (Hm & _).
  destruct r as [dl|].
  - destruct (obj dl); [eauto|]. apply IH. lia.
  - apply IH. lia.
Qed.

(** Whatever the wait returns, it returns before the deadline plus one poll
    interval plus the slack of the polls, or without any time passing. *)
Lemma wait_json_loop_env_bounded (late : nat -> Z) (slack : Z) (fuel : nat) :
  (forall k, 0 <= late k <= slack) ->
  forall k deadline w dl w',
    wait_json_loop_env late k fuel deadline w = Ok (dl, w') ->
    now w <= now w' /\
    (now w' = now w \/ now w' < deadline + POLL_MS + slack).
Proof.
  intros Hlate.
  induction fuel as [|fuel IH]; intros k deadline w dl w' Hrun;
    [discriminate|].
  simpl in Hrun. destruct (now w <? deadline) eqn:Hnow.
  - apply Z.ltb_lt in Hnow.
    destruct (queue_get_env (late k) POLL_MS w) as [r w1] eqn:Hget.
    destruct (queue_get_env_spec deadline _ _ _ _ Hnow
                (proj1 (Hlate k)) Hget) as (_ & Ht & _).
    pose proof (Hlate k) as Hk.
    assert (Hnext : wait_json_loop_env late (S k) fuel deadline w1
                    = Ok (dl, w') ->
              now w <= now w' /\
              (now w' = now w \/ now w' < deadline + POLL_MS + slack)).
    { intros H. destruct (IH _ _ _ _ _ H) as [Hle [Heq|Hlt]]; lia. }
    destruct r as [x|]; [|now apply Hnext].
    destruct (obj x); [|now apply Hnext].
    injection Hrun as _ <-. lia.
  - injection Hrun as _ <-. lia.
Qed.

(** When no JSON line is queued before the deadline plus one poll interval
    plus the slack of the polls, the wait hands back the timeout marker. *)
Lemma wait_json_loop_env_times_out (late : nat -> Z) (slack : Z) (fuel : nat) :
  (forall k, 0 <= late k <= slack) ->
  forall k deadline w,
    (wait_measure deadline w < fuel)%nat ->
    no_json_before (deadline + POLL_MS + slack) w ->
    exists w',
      wait_json_loop_env late k fuel deadline w
      = Ok (mkLine (now w') "(timeout waiting for JSON)" (Some timeout_obj), w')
      /\ tx w' = tx w.
Proof.
  intros Hlate.
  induction fuel as [|fuel IH]; intros k deadline w Hfuel [Hbuf Hinc]; [lia|].
  simpl. destruct (now w <? deadline) eqn:Hnow.
  - apply Z.ltb_lt in Hnow.
    destruct (queue_get_env (late k) POLL_MS w) as [r w'] eqn:Hget.
    pose proof (Hlate k) as Hk.
    destruct (queue_get_env_spec deadline _ _ _ _ Hnow (proj1 Hk) Hget)
      as (Hm & Ht & Htx & _ & _ & Hq' & Hinc' & Hr).
    assert (Hquiet : no_json_before (deadline + POLL_MS + slack) w').
    { split.
      - intros x Hx. destruct (Hq' x Hx) as [H|[H Hle]]; [now apply Hbuf|].
        apply Hinc; [assumption|]. unfold POLL_MS. lia.
      - intros x Hx Hlt. apply Hinc; [now apply Hinc'|assumption]. }
    assert (Hnext : exists w'',
              wait_json_loop_env late (S k) fuel deadline w'
              = Ok (mkLine (now w'') "(timeout waiting for JSON)"
                           (Some timeout_obj), w'')
              /\ tx w'' = tx w).
    { destruct (IH (S k) deadline w') as (w'' & Hrun & Htx'');
        [lia|assumption|].
      exists w''. split; [assumption|congruence]. }
    destruct r as [dl|]; [|exact Hnext].
    assert (Hnone : obj dl = None).
    { destruct (Hr dl eq_refl) as [H|[H Hlt]]; [now apply Hbuf|].
      apply Hinc; [assumption|lia]. }
    rewrite Hnone. exact Hnext.
  - exists w. split; reflexivity.
Qed.

Lemma wait_measure_of_timeout (w : World) (clock timeout_ms : Z)
    (written : list json) :
  wait_measure (clock + timeout_ms)
               (mkWorld clock (ser_open w) written (rxq w) (incoming w))
  = wait_measure (now w + timeout_ms) w.
Proof.
  unfold wait_measure. simpl.
  replace (clock + timeout_ms - clock) with (now w + timeout_ms - now w)
    by lia.
  reflexivity.
Qed.

(** C5, amended.  If [send_json] writes a payload with [wait_json = True]
    and no line carrying a parsed JSON object is queued before the timeout
    plus the small polling margin has elapsed, it returns the synthetic line
    whose [obj] is [{"error": "timeout"}], and it does not block past the
    timeout plus that small polling margin.  The margin is the poll that is
    in progress when the timeout elapses: its 50 ms and the slack by which
    polls come back late; the timeout runs from the end of the write. *)
Theorem send_json_times_out (E : LinkEnv) (slack : Z) (fuel : nat) (w : World)
    (payload : json) (timeout_ms : Z) :
  ser_open w = true ->
  write_error E = None ->
  (forall k, 0 <= late E k <= slack) ->
  0 <= timeout_ms ->
  (wait_fuel (now w + timeout_ms) w <= fuel)%nat ->
  let deadline := now w + write_ms E + timeout_ms in
  no_json_before (deadline + POLL_MS + slack) w ->
  exists w',
    send_json_env E fuel w payload true timeout_ms
    = Ok (mkLine (now w') "(timeout waiting for JSON)"
                 (Some (JObj [("error", JStr "timeout")])), w') /\
    now w' < deadline + POLL_MS + slack /\
    tx w' = tx w ++ [payload].
Proof.
  intros Hopen Hwrite Hlate Htimeout Hfuel deadline Hquiet.
  unfold send_json_env.
  replace (negb (ser_open w)) with false by (now rewrite Hopen).
  rewrite Hwrite. cbv iota beta zeta. simpl negb. cbv iota. simpl now.
  set (w1 := mkWorld (now w + write_ms E) (ser_open w) (tx w ++ [payload])
                     (rxq w) (incoming w)).
  assert (Hm : (wait_measure (now w + write_ms E + timeout_ms) w1 < fuel)%nat).
  { subst w1. rewrite wait_measure_of_timeout.
    unfold wait_fuel in Hfuel. lia. }
  destruct (wait_json_loop_env_times_out (late E) slack fuel Hlate 0
              (now w + write_ms E + timeout_ms) w1 Hm Hquiet)
    as (w' & Hrun & Htx).
  exists w'. split; [exact Hrun|].
  destruct (wait_json_loop_env_bounded (late E) slack fuel Hlate _ _ _ _ _ Hrun)
    as [Hle Hb].
  pose proof (Hlate 0%nat) as H0.
  subst deadline. simpl in Hle, Hb, Htx. unfold POLL_MS in *.
  split; [lia | exact Htx].
Qed.

Lemma send_json_times_out_witness :
  let E := mkEnv 2 None (fun _ => 1) in
  let w :=
    mkWorld 0 true [] [Sample.boot_line 0]
            [Sample.boot_line 30; Sample.ok_line 1053] in
  exists w',
    send_json_env E (wait_fuel (now w + 1000) w) w Sample.status_cmd true 1000
    = Ok (mkLine (now w') "(timeout waiting for JSON)"
                 (Some (JObj [("error", JStr "timeout")])), w') /\
    now w' < now w + write_ms E + 1000 + POLL_MS + 1 /\
    tx w' = tx w ++ [Sample.status_cmd].
Proof.
  cbv zeta.
  apply (send_json_times_out (mkEnv 2 None (fun _ => 1)) 1).
  - reflexivity.
  - reflexivity.
  - intros k. simpl. lia.
  - lia.
  - apply le_n.
  - split; simpl.
    + intros dl [<-|[]]. reflexivity.
    + intros dl [<-|[<-|[]]] Hlt; [reflexivity|].
      unfold POLL_MS in Hlt. simpl in Hlt. lia.
Defined.

(** With the fuel of [wait_fuel], or more, [send_json] on an open link
    returns a line. *)
Lemma send_json_returns (fuel : nat) (w : World) (payload : json)
    (wait_json : bool) (timeout_ms : Z) :
  ser_open w = true ->
  (wait_fuel (now w + timeout_ms) w <= fuel)%nat ->
  exists dl w', send_json fuel w payload wait_json timeout_ms = Ok (dl, w').
Proof.
  intros Hopen Hfuel. unfold send_json.
  replace (negb (ser_open w)) with false by (now rewrite Hopen).
  cbv iota beta zeta.
  destruct wait_json; simpl negb; cbv iota; [|eauto].
  apply wait_json_loop_returns.
  unfold wait_fuel in Hfuel. unfold wait_measure in *. simpl. lia.
Qed.

(** ** Auto-scan sessions *)

Module ScanFacts.
Import Scan.

Lemma idle_has_no_running_session (c : Controller) :
  is_running c = false -> running_count c = 0%nat.
Proof.
  unfold is_running, running_count.
  induction c as [|s c IH]; simpl; [reflexivity|].
  destruct (running s); simpl; [discriminate|exact IH].
Qed.

Lemma stop_leaves_none_running (c : Controller) :
  running_count (stop_auto_image_scan c) = 0%nat.
Proof.
  unfold running_count, stop_auto_image_scan.
  induction c as [|s c IH]; simpl; [reflexivity|exact IH].
Qed.

Lemma tick_session_running (s : ScanSession) :
  running (tick_session s) = true -> running s = true.
Proof.
  unfold tick_session. destruct (running s) eqn:E; [reflexivity|].
  now rewrite E.
Qed.

Lemma tick_starts_nothing (c : Controller) :
  (running_count (tick c) <= running_count c)%nat.
Proof.
  unfold running_count, tick.
  induction c as [|s c IH]; cbn [map filter]; [lia|].
  destruct (running (tick_session s)) eqn:E.
  - rewrite (tick_session_running s E). cbn [length]. lia.
  - destruct (running s); cbn [length]; lia.
Qed.

Lemma start_keeps_at_most_one (L : Lib) (g : Globals) (c : Controller)
    (image_path : string) (start_line : Z) (end_line : option Z)
    (interval_ms : Z) (threshold : Z) (gamma : Q) (serpentine do_swap : bool)
    (loop : bool) :
  (running_count c <= 1)%nat ->
  (running_count
     (snd (start_auto_image_scan L g c image_path start_line end_line
                                 interval_ms threshold gamma serpentine
                                 do_swap loop)) <= 1)%nat.
Proof.
  intros Hc. unfold start_auto_image_scan.
  destruct (is_running c) eqn:E; simpl snd; [exact Hc|].
  unfold running_count. rewrite filter_app, length_app.
  fold (running_count c). rewrite (idle_has_no_running_session c E).
  simpl. lia.
Qed.

Lemma act_keeps_at_most_one (L : Lib) (g : Globals) (c : Controller)
    (a : action) :
  (running_count c <= 1)%nat -> (running_count (act L g c a) <= 1)%nat.
Proof.
  intros Hc. destruct a as [p s e i th ga se sw l| |]; simpl.
  - now apply start_keeps_at_most_one.
  - unfold ui_stop_autoscan. rewrite stop_leaves_none_running. lia.
  - pose proof (tick_starts_nothing c). lia.
Qed.

Lemma actions_keep_at_most_one (L : Lib) (g : Globals) (acts : list action) :
  forall c,
    (running_count c <= 1)%nat ->
    (running_count (fold_left (act L g) acts c) <= 1)%nat.
Proof.
  induction acts as [|a acts IH]; intros c Hc; simpl; [exact Hc|].
  apply IH. now apply act_keeps_at_most_one.
Qed.

End ScanFacts.

(** C9. On a controller with a Running session, the start action is
    rejected and leaves the controller as it is: no second session is
    created; and whatever sequence of starts, stops and ticks a controller
    goes through, at most one of its sessions is Running. *)
Theorem second_autoscan_start_rejected (L : Lib) (g : Globals) :
  (forall c image_path start_line end_line interval_ms threshold gamma
          serpentine do_swap loop,
     Scan.is_running c = true ->
     Scan.ui_start_autoscan L g c image_path start_line end_line interval_ms
                            threshold gamma serpentine do_swap loop
     = (Scan.RejectedAlreadyRunning, c)) /\
  (forall acts, (Scan.running_count (Scan.run L g acts) <= 1)%nat).
Proof.
  split.
  - intros c image_path start_line end_line interval_ms threshold gamma
           serpentine do_swap loop Hrun.
    unfold Scan.ui_start_autoscan, Scan.start_auto_image_scan.
    now rewrite Hrun.
  - intros acts. unfold Scan.run.
    apply ScanFacts.actions_keep_at_most_one.
    unfold Scan.running_count. simpl. lia.
Qed.

Lemma second_autoscan_start_rejected_witness :
  let c :=
    Scan.run Sample.sample_lib module_init
             [Scan.ActStart "white.png" 0 None 50 32 1%Q false true true] in
  Scan.is_running c = true /\
  Scan.ui_start_autoscan Sample.sample_lib module_init c "white.png" 0 None
                         50 32 1%Q false true true
  = (Scan.RejectedAlreadyRunning, c).
Proof.
  cbv zeta. split; [reflexivity|].
  apply (proj1 (second_autoscan_start_rejected Sample.sample_lib module_init)).
  reflexivity.
Defined.

(** * Further properties *)

(** ** Positions of the generated dots *)

Lemma range_nth (n i : Z) :
  0 <= i < n -> nth (Z.to_nat i) (range n) 0 = i.
Proof.
  intros Hi. unfold range.
  change (nth (Z.to_nat i) (map Z.of_nat (seq 0 (Z.to_nat n))) (Z.of_nat 0)
          = i).
  rewrite map_nth.
  rewrite seq_nth by lia. lia.
Qed.

Lemma map_range_nth {A : Type} (f : Z -> A) (n i : Z) (default : A) :
  0 <= i < n -> nth (Z.to_nat i) (map f (range n)) default = f i.
Proof.
  intros Hi.
  rewrite (nth_indep _ default (f 0))
    by (rewrite length_map, range_length; lia).
  rewrite map_nth. now rewrite range_nth.
Qed.

(** The [i]-th dot of a line of two or more dots. *)
Lemma gen_line_nth (g : Globals) (n rgb_mask i : Z) (default : Dot) :
  let n' := Z.max 1 (Z.min (DOT_CAP g) n) in
  2 <= n' -> 0 <= i < n' ->
  nth (Z.to_nat i) (gen_line g n rgb_mask) default
  = mkDot (Z.quot (i * 65535) (n' - 1)) (Z.land rgb_mask 7).
Proof.
  intros n' Hn Hi. unfold gen_line. fold n'.
  destruct (n' =? 1) eqn:E; [apply Z.eqb_eq in E; lia|].
  now rewrite map_range_nth.
Qed.

Lemma position_in_range (d i : Z) :
  0 < d -> 0 <= i <= d -> 0 <= Z.quot (i * 65535) d <= 65535.
Proof.
  intros Hd Hi. rewrite Z.quot_div_nonneg by lia. split.
  - apply Z.div_pos; lia.
  - apply Z.div_le_upper_bound; nia.
Qed.

Lemma mask_in_range (m : Z) : 0 <= Z.land m 7 <= 7.
Proof. exact (proj1 (low3_land m)). Qed.

Lemma gen_line_wire (g : Globals) (n rgb_mask : Z) :
  Forall wire_dot (gen_line g n rgb_mask).
Proof.
  unfold gen_line.
  destruct (Z.max 1 (Z.min (DOT_CAP g) n) =? 1) eqn:E.
  - constructor; [|constructor]. split; simpl; [lia|apply mask_in_range].
  - apply Z.eqb_neq in E. apply Forall_forall. intros d Hd.
    apply in_map_iff in Hd as (i & <- & Hi). apply range_in in Hi.
    split; simpl; [|apply mask_in_range].
    apply position_in_range; lia.
Qed.

(** X1. A line of one dot ([n] at most 1, or a capacity of at most 1) is the
    single dot at the midpoint 32768.  A longer line starts at position 0
    and ends at position 65535.  Every dot of a line carries the mask cut to
    three bits and a position within [0, 65535]. *)
Theorem gen_line_spans_range (g : Globals) (n rgb_mask : Z) :
  let n' := Z.max 1 (Z.min (DOT_CAP g) n) in
  let mask := Z.land rgb_mask 7 in
  let line := gen_line g n rgb_mask in
  (n' = 1 -> line = [mkDot 32768 mask]) /\
  (2 <= n' ->
   nth 0 line (mkDot (-1) 0) = mkDot 0 mask /\
   nth (Z.to_nat (n' - 1)) line (mkDot (-1) 0) = mkDot 65535 mask) /\
  Forall wire_dot line /\
  (forall d, In d line -> rgbMask d = mask).
Proof.
  intros n' mask line. repeat apply conj.
  - intros H1. subst line. unfold gen_line. fold n'. now rewrite H1.
  - intros H2. subst line. split.
    + change 0%nat with (Z.to_nat 0).
      rewrite gen_line_nth by (fold n'; lia). fold n'.
      rewrite Z.mul_0_l, Z.quot_0_l by lia. reflexivity.
    + rewrite gen_line_nth by (fold n'; lia). fold n'.
      rewrite (Z.mul_comm (n' - 1) 65535), Z.quot_mul by lia. reflexivity.
  - apply gen_line_wire.
  - intros d Hd. now apply (gen_line_mask g n rgb_mask).
Qed.

Lemma gen_line_spans_range_witness :
  gen_line module_init 0 9 = [mkDot 32768 1] /\
  nth 0 (gen_line module_init 5 9) (mkDot (-1) 0) = mkDot 0 1 /\
  nth 4 (gen_line module_init 5 9) (mkDot (-1) 0) = mkDot 65535 1.
Proof.
  destruct (gen_line_spans_range module_init 0 9) as (H1 & _).
  destruct (gen_line_spans_range module_init 5 9) as (_ & H2 & _).
  split; [apply H1; reflexivity|].
  apply H2. simpl. lia.
Defined.

Lemma step_of_quotients (d x a : Z) :
  0 < d -> 0 <= x -> 0 <= a ->
  a / d <= (x + a) / d - x / d <= a / d + 1.
Proof.
  intros Hd Hx Ha.
  assert (E : (x + a) / d = x / d + a / d + (x mod d + a mod d) / d).
  { rewrite <- Z.div_add_l by lia. f_equal.
    pose proof (Z.div_mod x d). pose proof (Z.div_mod a d). lia. }
  rewrite E.
  pose proof (Z.mod_pos_bound x d Hd).
  pose proof (Z.mod_pos_bound a d Hd).
  assert (0 <= (x mod d + a mod d) / d) by (apply Z.div_pos; lia).
  assert ((x mod d + a mod d) / d < 2)
    by (apply Z.div_lt_upper_bound; lia).
  lia.
Qed.

(** X2. In a line of two or more dots, the step from each dot to the next
    is the whole quotient of 65535 by the number of steps, or one more: the
    dots are evenly spaced. *)
Theorem gen_line_even_spacing (g : Globals) (n rgb_mask i : Z) :
  let n' := Z.max 1 (Z.min (DOT_CAP g) n) in
  let line := gen_line g n rgb_mask in
  let pos k := idxNorm (nth (Z.to_nat k) line (mkDot (-1) 0)) in
  2 <= n' -> 0 <= i < n' - 1 ->
  65535 / (n' - 1) <= pos (i + 1) - pos i <= 65535 / (n' - 1) + 1.
Proof.
  intros n' line pos Hn Hi. subst pos line. cbv beta.
  rewrite !gen_line_nth by (fold n'; lia). fold n'. simpl idxNorm.
  rewrite !Z.quot_div_nonneg by lia.
  replace ((i + 1) * 65535) with (i * 65535 + 65535) by ring.
  apply step_of_quotients; lia.
Qed.

Lemma gen_line_even_spacing_witness :
  let pos k := idxNorm (nth (Z.to_nat k) (gen_line module_init 5 9)
                            (mkDot (-1) 0)) in
  65535 / 4 <= pos (2 + 1) - pos 2 <= 65535 / 4 + 1.
Proof.
  apply (gen_line_even_spacing module_init 5 9 2); simpl; lia.
Defined.

Lemma increasing_map_seq (f : Z -> Z) (mask : Z) (len start : nat) :
  (forall i, Z.of_nat start <= i -> i + 1 < Z.of_nat (start + len) ->
             f i < f (i + 1)) ->
  increasing (map (fun i => mkDot (f i) mask) (map Z.of_nat (seq start len))).
Proof.
  unfold increasing. revert start.
  induction len as [|len IH]; intros start Hstep; simpl; [constructor|].
  constructor.
  - apply IH. intros i Hlo Hhi. apply Hstep; lia.
  - destruct len; cbn [seq map]; constructor. cbn [idxNorm].
    replace (Z.of_nat (S start)) with (Z.of_nat start + 1) by lia.
    apply Hstep; lia.
Qed.

Lemma increasing_map_range (f : Z -> Z) (mask n : Z) :
  (forall i, 0 <= i -> i + 1 < n -> f i < f (i + 1)) ->
  increasing (map (fun i => mkDot (f i) mask) (range n)).
Proof.
  intros Hstep. unfold range. apply increasing_map_seq.
  intros i Hlo Hhi. apply Hstep; lia.
Qed.

Lemma position_step (d i : Z) :
  0 < d <= 65535 -> 0 <= i ->
  Z.quot (i * 65535) d < Z.quot ((i + 1) * 65535) d.
Proof.
  intros Hd Hi. rewrite !Z.quot_div_nonneg by lia.
  replace ((i + 1) * 65535) with (i * 65535 + 65535) by ring.
  pose proof (step_of_quotients d (i * 65535) 65535).
  assert (1 <= 65535 / d) by (apply Z.div_le_lower_bound; lia).
  lia.
Qed.

(** X3. With a capacity of at most 65536, no two dots of a line share a
    position: the positions ascend strictly. *)
Theorem gen_line_distinct_positions (g : Globals) (n rgb_mask : Z) :
  DOT_CAP g <= 65536 -> increasing (gen_line g n rgb_mask).
Proof.
  intros Hcap. unfold gen_line.
  destruct (Z.max 1 (Z.min (DOT_CAP g) n) =? 1) eqn:E.
  - repeat constructor.
  - apply Z.eqb_neq in E.
    apply (increasing_map_range
             (fun i => Z.quot (i * 65535) (Z.max 1 (Z.min (DOT_CAP g) n) - 1))).
    intros i Hlo Hhi. apply position_step; lia.
Qed.

Lemma gen_line_distinct_positions_witness :
  DOT_CAP module_init <= 65536 /\ increasing (gen_line module_init 300 7).
Proof.
  assert (H : DOT_CAP module_init <= 65536) by (simpl; lia).
  split; [exact H|]. now apply gen_line_distinct_positions.
Defined.

(** ** The order of the colour bars *)

(** Sorting is stable: the dots at one position keep their order. *)
Lemma insert_by_idx_at_position (p : Z) (d : Dot) (l : list Dot) :
  at_position p (insert_by_idx d l) = at_position p (d :: l).
Proof.
  unfold at_position.
  induction l as [|x rest IH]; simpl; [reflexivity|].
  destruct (idxNorm d <=? idxNorm x) eqn:E; simpl; [reflexivity|].
  rewrite IH. simpl.
  destruct (idxNorm d =? p) eqn:Ed; [|reflexivity].
  destruct (idxNorm x =? p) eqn:Ex; [lia|reflexivity].
Qed.

Lemma sort_by_idx_at_position (p : Z) (l : list Dot) :
  at_position p (sort_by_idx l) = at_position p l.
Proof.
  induction l as [|d rest IH]; simpl; [reflexivity|].
  rewrite insert_by_idx_at_position.
  unfold at_position in *. simpl. now rewrite IH.
Qed.

Lemma at_position_above (p : Z) (l : list Dot) :
  Forall (fun d => p < idxNorm d) l -> at_position p l = [].
Proof.
  unfold at_position. induction 1 as [|d rest Hd _ IH]; simpl; [reflexivity|].
  destruct (idxNorm d =? p) eqn:E; [lia|exact IH].
Qed.

Lemma increasing_head_below (d : Dot) (l : list Dot) :
  increasing (d :: l) -> Forall (fun x => idxNorm d < idxNorm x) l.
Proof.
  unfold increasing. revert d.
  induction l as [|y rest IH]; intros d Hs; [constructor|].
  apply Sorted_inv in Hs as [Hrest Hhd]. apply HdRel_inv in Hhd.
  constructor; [exact Hhd|].
  specialize (IH y Hrest).
  eapply Forall_impl; [|exact IH]. simpl. intros x Hx. lia.
Qed.

(** Among strictly ascending dots each sits alone at its position. *)
Lemma at_position_increasing (l : list Dot) (x : Dot) :
  increasing l -> In x l -> at_position (idxNorm x) l = [x].
Proof.
  induction l as [|y rest IH]; intros Hs Hx; [contradiction|].
  pose proof (increasing_head_below y rest Hs) as Habove.
  assert (Hrest : increasing rest)
    by (unfold increasing in *; now apply Sorted_inv in Hs).
  destruct Hx as [->|Hx].
  - change (at_position (idxNorm x) (x :: rest))
      with (if idxNorm x =? idxNorm x
            then x :: at_position (idxNorm x) rest
            else at_position (idxNorm x) rest).
    rewrite Z.eqb_refl. now rewrite at_position_above.
  - change (at_position (idxNorm x) (y :: rest))
      with (if idxNorm y =? idxNorm x
            then y :: at_position (idxNorm x) rest
            else at_position (idxNorm x) rest).
    assert (idxNorm y < idxNorm x).
    { rewrite Forall_forall in Habove. now apply Habove. }
    destruct (idxNorm y =? idxNorm x) eqn:E; [lia|]. now apply IH.
Qed.

Lemma color_bar_increasing (n mask : Z) :
  n <= 65536 -> increasing (color_bar n mask).
Proof.
  intros Hn. unfold color_bar.
  apply (increasing_map_range
           (fun i => Z.quot (i * 65535) (Z.max 1 (n - 1)))).
  intros i Hlo Hhi. apply position_step; lia.
Qed.

Lemma color_bar_in (n mask i : Z) :
  0 <= i < n ->
  In (mkDot (Z.quot (i * 65535) (Z.max 1 (n - 1))) mask) (color_bar n mask).
Proof.
  intros Hi. unfold color_bar. apply in_map_iff.
  exists i. split; [reflexivity|]. now apply range_in.
Qed.

Lemma color_bar_at_position (n mask i : Z) :
  n <= 65536 -> 0 <= i < n ->
  at_position (Z.quot (i * 65535) (Z.max 1 (n - 1))) (color_bar n mask)
  = [mkDot (Z.quot (i * 65535) (Z.max 1 (n - 1))) mask].
Proof.
  intros Hn Hi.
  apply (at_position_increasing (color_bar n mask)
           (mkDot (Z.quot (i * 65535) (Z.max 1 (n - 1))) mask)).
  - now apply color_bar_increasing.
  - now apply color_bar_in.
Qed.

(** X4. With room for one dot per colour and at most 65536 dots per colour,
    the colour bars hold, at each of their [n'] positions, exactly three
    dots, in the order red, green, blue. *)
Theorem gen_color_bars_rgb_order (g : Globals) (n i : Z) :
  let n' := Z.max 1 (Z.min (DOT_CAP g / 3) n) in
  let p := Z.quot (i * 65535) (Z.max 1 (n' - 1)) in
  3 <= DOT_CAP g -> DOT_CAP g / 3 <= 65536 -> 0 <= i < n' ->
  at_position p (gen_color_bars g n) = [mkDot p 1; mkDot p 2; mkDot p 4].
Proof.
  intros n' p Hcap Hmax Hi.
  rewrite gen_color_bars_untruncated by assumption. cbv zeta. fold n'.
  rewrite sort_by_idx_at_position.
  unfold at_position. rewrite !filter_app.
  fold (at_position p (color_bar n' 1)).
  fold (at_position p (color_bar n' 2)).
  fold (at_position p (color_bar n' 4)).
  subst p. rewrite !color_bar_at_position by lia. reflexivity.
Qed.

Lemma gen_color_bars_rgb_order_witness :
  at_position 32767 (gen_color_bars module_init 3)
  = [mkDot 32767 1; mkDot 32767 2; mkDot 32767 4].
Proof.
  apply (gen_color_bars_rgb_order module_init 3 1);
    [ | | split]; vm_compute; first [reflexivity | discriminate].
Defined.

(** ** Dot lists through the parser *)

Lemma normalized_wire (d : Dot) : wire_dot d -> normalized d = d.
Proof.
  destruct d as [i m]. unfold wire_dot, normalized. simpl. intros [Hi Hm].
  f_equal; [lia|].
  change 7 with (Z.ones 3). rewrite Z.land_ones by lia.
  apply Z.mod_small. simpl. lia.
Qed.

Lemma insert_by_idx_front (d : Dot) (l : list Dot) :
  HdRel idx_le d l -> insert_by_idx d l = d :: l.
Proof.
  intros H. destruct l as [|x rest]; [reflexivity|].
  apply HdRel_inv in H. unfold idx_le in H. simpl.
  destruct (idxNorm d <=? idxNorm x) eqn:E; [reflexivity|lia].
Qed.

(** Sorting leaves an ascending list as it is. *)
Lemma sort_by_idx_ascending_id (l : list Dot) :
  ascending l -> sort_by_idx l = l.
Proof.
  unfold ascending. induction l as [|d rest IH]; intros Hs; [reflexivity|].
  apply Sorted_inv in Hs as [Hrest Hhd]. simpl.
  rewrite IH by assumption. now apply insert_by_idx_front.
Qed.

(** The loop on entries written by [json.dumps] of a dot list: it stores
    them normalized, in order, until the capacity is reached. *)
Lemma parse_entries_of_dots (L : Lib) (cap : Z) (dots : list Dot) :
  forall acc,
    Z.of_nat (length acc) < cap ->
    parse_entries L cap (map dot_json dots) acc
    = Ok (acc ++ firstn (Z.to_nat cap - length acc) (map normalized dots)).
Proof.
  induction dots as [|d dots IH]; intros acc Hacc.
  - simpl. now rewrite firstn_nil, app_nil_r.
  - cbn [map parse_entries dot_json].
    change (dict_get [("idxNorm", JInt (idxNorm d)); ("rgbMask", JInt (rgbMask d))]
                     "idxNorm" (JInt 0)) with (JInt (idxNorm d)).
    change (dict_get [("idxNorm", JInt (idxNorm d)); ("rgbMask", JInt (rgbMask d))]
                     "rgbMask" (JInt 0)) with (JInt (rgbMask d)).
    cbn [py_int Py.bind]. fold (normalized d).
    assert (Hlen : length (acc ++ [normalized d]) = S (length acc))
      by (rewrite length_app; simpl; lia).
    destruct (Z.of_nat (length (acc ++ [normalized d])) >=? cap) eqn:E.
    + replace (Z.to_nat cap - length acc)%nat with 1%nat by lia.
      cbn [firstn]. reflexivity.
    + rewrite IH by lia. rewrite Hlen, <- app_assoc. cbn [app].
      replace (Z.to_nat cap - length acc)%nat
        with (S (Z.to_nat cap - S (length acc))) by lia.
      reflexivity.
Qed.

Lemma parse_dots_value_of_dots (L : Lib) (g : Globals) (dots : list Dot) :
  1 <= DOT_CAP g ->
  parse_dots_value L g (JArr (map dot_json dots))
  = Ok (sort_by_idx (firstn (Z.to_nat (DOT_CAP g)) (map normalized dots)),
        ("ok ("
         ++ str_of_nat
              (length (sort_by_idx
                         (firstn (Z.to_nat (DOT_CAP g)) (map normalized dots))))
         ++ " dots)")%string).
Proof.
  intros Hcap. unfold parse_dots_value. cbn [dots_field].
  rewrite parse_entries_of_dots by (simpl; lia).
  cbn [Py.bind app length]. rewrite Nat.sub_0_r. reflexivity.
Qed.

(** X5. When the array holds more dots than the capacity, the parser keeps
    the first [DOT_CAP] entries in the order of the text, and sorts those:
    what is cut off is the end of the text, not the highest positions.
    Every entry is stored with its position clamped and its mask cut. *)
Theorem parse_dots_keeps_first_entries (L : Lib) (g : Globals)
    (dots : list Dot) :
  1 <= DOT_CAP g ->
  let kept :=
    sort_by_idx (firstn (Z.to_nat (DOT_CAP g)) (map normalized dots)) in
  parse_dots_value L g (JArr (map dot_json dots))
  = Ok (kept, ("ok (" ++ str_of_nat (length kept) ++ " dots)")%string).
Proof.
  intros Hcap kept. now apply parse_dots_value_of_dots.
Qed.

Lemma parse_dots_keeps_first_entries_witness :
  parse_dots_value Sample.sample_lib (mkGlobals 2 None)
    (JArr (map dot_json [mkDot 900 1; mkDot 70000 9; mkDot 5 4]))
  = Ok ([mkDot 900 1; mkDot 65535 1], "ok (2 dots)").
Proof.
  apply (parse_dots_keeps_first_entries Sample.sample_lib (mkGlobals 2 None)
           [mkDot 900 1; mkDot 70000 9; mkDot 5 4]).
  simpl. lia.
Defined.

(** X6. Round trip: a list of wire dots that ascends and fits the capacity,
    written as a JSON array of [{"idxNorm", "rgbMask"}] objects, is read
    back unchanged, with the count in the message; wrapped in an object
    under the key ["dots"] it reads the same. *)
Theorem parse_dots_round_trip (L : Lib) (g : Globals) (dots : list Dot)
    (others : list (string * json)) :
  Forall wire_dot dots ->
  ascending dots ->
  Z.of_nat (length dots) <= DOT_CAP g ->
  let reply :=
    Ok (dots, ("ok (" ++ str_of_nat (length dots) ++ " dots)")%string) in
  parse_dots_value L g (JArr (map dot_json dots)) = reply /\
  parse_dots_value L g (JObj (("dots", JArr (map dot_json dots)) :: others))
  = reply.
Proof.
  intros Hwire Hasc Hlen reply.
  assert (H : parse_dots_value L g (JArr (map dot_json dots)) = reply).
  { destruct dots as [|d rest] eqn:Edots; [reflexivity|].
    rewrite <- Edots in *.
    assert (Hcap : 1 <= DOT_CAP g)
      by (rewrite Edots in Hlen; simpl length in Hlen; lia).
    rewrite (parse_dots_value_of_dots L g dots Hcap).
    assert (Hnorm : map normalized dots = dots).
    { clear - Hwire. induction Hwire as [|x l Hx _ IH]; [reflexivity|].
      simpl. now rewrite normalized_wire, IH. }
    rewrite Hnorm, firstn_all2 by lia.
    rewrite sort_by_idx_ascending_id by assumption.
    subst reply. now rewrite Edots. }
  split; [exact H|exact H].
Qed.

Lemma parse_dots_round_trip_witness :
  parse_dots_value Sample.sample_lib module_init
    (JArr (map dot_json [mkDot 0 1; mkDot 0 2; mkDot 65535 7]))
  = Ok ([mkDot 0 1; mkDot 0 2; mkDot 65535 7], "ok (3 dots)").
Proof.
  apply (parse_dots_round_trip Sample.sample_lib module_init
           [mkDot 0 1; mkDot 0 2; mkDot 65535 7] []).
  - repeat constructor; simpl; lia.
  - repeat constructor; unfold idx_le; simpl; lia.
  - simpl. lia.
Defined.

(** ** Generated patterns *)

Lemma firstn_in {A : Type} (k : nat) (l : list A) (x : A) :
  In x (firstn k l) -> In x l.
Proof.
  revert l. induction k as [|k IH]; intros l H; [contradiction|].
  destruct l as [|y rest]; [contradiction|].
  destruct H as [->|H]; [now left|right; now apply IH].
Qed.

Lemma slice_to_in {A : Type} (k : Z) (l : list A) (x : A) :
  In x (slice_to k l) -> In x l.
Proof.
  unfold slice_to. destruct (k <? 0); apply firstn_in.
Qed.

Lemma color_bar_wire (n mask : Z) :
  0 <= mask <= 7 -> Forall wire_dot (color_bar n mask).
Proof.
  intros Hm. apply Forall_forall. intros d Hd.
  unfold color_bar in Hd. apply in_map_iff in Hd as (i & <- & Hi).
  apply range_in in Hi. split; simpl; [|exact Hm].
  apply position_in_range; lia.
Qed.

Lemma gen_color_bars_wire (g : Globals) (n : Z) :
  Forall wire_dot (gen_color_bars g n).
Proof.
  apply Forall_forall. intros d Hd.
  rewrite gen_color_bars_unfold in Hd. cbv zeta in Hd.
  apply slice_to_in in Hd. apply (proj1 (sort_by_idx_in _ _)) in Hd.
  apply in_app_or in Hd as [Hd|Hd]; [|apply in_app_or in Hd as [Hd|Hd]];
    revert d Hd; apply Forall_forall; apply color_bar_wire; lia.
Qed.

Lemma gen_color_bars_nonempty (g : Globals) (n : Z) :
  1 <= DOT_CAP g -> (1 <= length (gen_color_bars g n))%nat.
Proof.
  intros Hcap. rewrite gen_color_bars_unfold. cbv zeta.
  unfold slice_to. destruct (DOT_CAP g <? 0) eqn:E; [lia|].
  rewrite length_firstn, sort_by_idx_length, !length_app, !color_bar_length.
  lia.
Qed.

Lemma gen_single_dot_wire (idx rgb_mask : Z) :
  Forall wire_dot (gen_single_dot idx rgb_mask).
Proof.
  constructor; [|constructor].
  split; simpl; [lia|apply mask_in_range].
Qed.

(** The facts the three generators share. *)
Lemma ui_make_pattern_dots (g : Globals) (kind : string) (n idx rgb_mask : Z) :
  1 <= DOT_CAP g ->
  let dots := fst (ui_make_pattern g kind n idx rgb_mask) in
  (1 <= length dots)%nat /\
  Z.of_nat (length dots) <= DOT_CAP g /\
  Forall wire_dot dots /\
  ascending dots.
Proof.
  intros Hcap. unfold ui_make_pattern. cbn [fst].
  destruct (String.eqb kind "single"); [|destruct (String.eqb kind "line")].
  - repeat apply conj.
    + simpl. lia.
    + simpl. lia.
    + apply gen_single_dot_wire.
    + repeat constructor.
  - pose proof (gen_line_length g n rgb_mask). repeat apply conj.
    + lia.
    + lia.
    + apply gen_line_wire.
    + apply gen_line_ascending.
  - repeat apply conj.
    + now apply gen_color_bars_nonempty.
    + rewrite gen_color_bars_unfold. cbv zeta. apply slice_to_length. lia.
    + apply gen_color_bars_wire.
    + apply gen_color_bars_ascending.
Qed.

(** X7. Whatever kind, count, position and mask the pattern editor is given,
    with a capacity of at least one the generated list has at least one dot
    and at most [DOT_CAP], holds wire dots only, and ascends; the message
    states its length; and the parser reads the generated list back
    unchanged, so that what is uploaded is what was generated. *)
Theorem ui_make_pattern_uploads_unchanged (L : Lib) (g : Globals)
    (kind : string) (n idx rgb_mask : Z) :
  1 <= DOT_CAP g ->
  let dots := fst (ui_make_pattern g kind n idx rgb_mask) in
  (1 <= length dots)%nat /\
  Z.of_nat (length dots) <= DOT_CAP g /\
  Forall wire_dot dots /\
  snd (ui_make_pattern g kind n idx rgb_mask)
  = ("generated " ++ str_of_nat (length dots) ++ " dots")%string /\
  parse_dots_value L g (JArr (map dot_json dots))
  = Ok (dots, ("ok (" ++ str_of_nat (length dots) ++ " dots)")%string).
Proof.
  intros Hcap dots.
  destruct (ui_make_pattern_dots g kind n idx rgb_mask Hcap)
    as (Hne & Hle & Hwire & Hasc).
  fold dots in Hne, Hle, Hwire, Hasc.
  split; [exact Hne|]. split; [exact Hle|]. split; [exact Hwire|].
  split; [reflexivity|].
  rewrite (parse_dots_value_of_dots L g dots Hcap).
  assert (Hnorm : map normalized dots = dots).
  { clear - Hwire. induction Hwire as [|x l Hx _ IH]; [reflexivity|].
    simpl. now rewrite normalized_wire, IH. }
  rewrite Hnorm, firstn_all2 by lia.
  now rewrite sort_by_idx_ascending_id.
Qed.

Lemma ui_make_pattern_uploads_unchanged_witness :
  1 <= DOT_CAP module_init /\
  snd (ui_make_pattern module_init "color_bars" 2 0 0) = "generated 6 dots" /\
  parse_dots_value Sample.sample_lib module_init
    (JArr (map dot_json (fst (ui_make_pattern module_init "color_bars" 2 0 0))))
  = Ok (fst (ui_make_pattern module_init "color_bars" 2 0 0), "ok (6 dots)").
Proof.
  assert (H : 1 <= DOT_CAP module_init) by (simpl; lia).
  destruct (ui_make_pattern_uploads_unchanged Sample.sample_lib module_init
              "color_bars" 2 0 0 H) as (_ & _ & _ & Hmsg & Hparse).
  split; [exact H|]. split; [exact Hmsg|exact Hparse].
Defined.

(** ** What a send leaves behind *)

Lemma wait_json_loop_frame (fuel : nat) :
  forall deadline w dl w',
    wait_json_loop fuel deadline w = Ok (dl, w') ->
    tx w' = tx w /\ ser_open w' = ser_open w /\ now w <= now w' /\
    obj dl <> None.
Proof.
  induction fuel as [|fuel IH]; intros deadline w dl w' Hrun; [discriminate|].
  simpl in Hrun. destruct (now w <? deadline) eqn:Hnow.
  - apply Z.ltb_lt in Hnow.
    destruct (queue_get POLL_MS w) as [r w1] eqn:Hget.
    destruct (queue_get_spec deadline _ _ _ Hnow Hget)
      as (_ & Ht & Htx & Hopen & _).
    assert (Hnext : wait_json_loop fuel deadline w1 = Ok (dl, w') ->
              tx w' = tx w /\ ser_open w' = ser_open w /\ now w <= now w' /\
              obj dl <> None).
    { intros H. destruct (IH _ _ _ _ H) as (H1 & H2 & H3 & H4).
      split; [congruence|]. split; [congruence|]. split; [lia|exact H4]. }
    destruct r as [x|]; [|now apply Hnext].
    destruct (obj x) eqn:Hobj; [|now apply Hnext].
    injection Hrun as <- <-.
    split; [assumption|]. split; [assumption|]. split; [lia|congruence].
  - injection Hrun as <- <-.
    split; [reflexivity|]. split; [reflexivity|]. split; [lia|discriminate].
Qed.

Lemma send_json_frame (fuel : nat) (w : World) (payload : json)
    (wait_json : bool) (timeout_ms : Z) (dl : DeviceLine) (w' : World) :
  send_json fuel w payload wait_json timeout_ms = Ok (dl, w') ->
  ser_open w = true /\
  ser_open w' = true /\
  tx w' = tx w ++ [payload] /\
  now w <= now w' /\
  (wait_json = true -> obj dl <> None) /\
  (wait_json = false ->
   dl = mkLine (now w) "(sent)" None /\
   rxq w' = rxq w /\ incoming w' = incoming w /\ now w' = now w).
Proof.
  intros Hrun. unfold send_json in Hrun.
  destruct (ser_open w) eqn:Hopen; [|discriminate].
  cbn [negb] in Hrun. cbv zeta in Hrun.
  destruct wait_json; cbn [negb now] in Hrun.
  - apply wait_json_loop_frame in Hrun as (Htx & Hopen' & Hnow & Hobj).
    simpl in Htx, Hopen', Hnow.
    repeat apply conj; try assumption; try reflexivity; try discriminate.
    intros _. exact Hobj.
  - injection Hrun as <- <-. simpl.
    repeat apply conj; try reflexivity; try discriminate; try lia.
    intros _. repeat apply conj; reflexivity.
Qed.

(** X8. [send_json] raises exactly when the link is not open.  When it
    returns, the payload has been written once, after what was written
    before; the link is still open; the clock has not gone back; a reply that
    was waited for carries a parsed object; and a send that does not wait
    returns the ["(sent)"] marker at once and leaves the receive queue
    alone. *)
Theorem send_json_outcome (fuel : nat) (w : World) (payload : json)
    (wait_json : bool) (timeout_ms : Z) :
  (ser_open w = false ->
   send_json fuel w payload wait_json timeout_ms
   = Raise (RuntimeError "Serial not open")) /\
  (forall dl w',
     send_json fuel w payload wait_json timeout_ms = Ok (dl, w') ->
     ser_open w = true /\
     ser_open w' = true /\
     tx w' = tx w ++ [payload] /\
     now w <= now w' /\
     (wait_json = true -> obj dl <> None) /\
     (wait_json = false ->
      dl = mkLine (now w) "(sent)" None /\
      rxq w' = rxq w /\ incoming w' = incoming w /\ now w' = now w)).
Proof.
  split.
  - intros Hclosed. unfold send_json. now rewrite Hclosed.
  - intros dl w'. apply send_json_frame.
Qed.

Lemma send_json_outcome_witness :
  let w := mkWorld 7 true [] [Sample.boot_line 0] [] in
  send_json 0 (mkWorld 7 false [] [] []) Sample.status_cmd true 1000
  = Raise (RuntimeError "Serial not open") /\
  tx (snd (mkLine 7 "(sent)" None,
           mkWorld 7 true [Sample.status_cmd] [Sample.boot_line 0] []))
  = tx w ++ [Sample.status_cmd].
Proof.
  cbv zeta.
  split.
  - apply (proj1 (send_json_outcome 0 (mkWorld 7 false [] [] [])
                    Sample.status_cmd true 1000)).
    reflexivity.
  - destruct (proj2 (send_json_outcome 0
                       (mkWorld 7 true [] [Sample.boot_line 0] [])
                       Sample.status_cmd false 1000)
                _ _ eq_refl) as (_ & _ & Htx & _).
    exact Htx.
Defined.



(** X10. With a timeout of zero or less the wait never looks at the queue:
    [send_json] writes the payload and returns the timeout marker at once,
    even when a JSON line is waiting in the buffer, which stays there. *)
Theorem send_json_zero_timeout (fuel : nat) (w : World) (payload : json)
    (timeout_ms : Z) :
  ser_open w = true ->
  timeout_ms <= 0 ->
  (1 <= fuel)%nat ->
  send_json fuel w payload true timeout_ms
  = Ok (mkLine (now w) "(timeout waiting for JSON)" (Some timeout_obj),
        mkWorld (now w) true (tx w ++ [payload]) (rxq w) (incoming w)).
Proof.
  intros Hopen Htimeout Hfuel.
  unfold send_json. rewrite Hopen. cbn [negb]. cbv zeta. cbn [now].
  destruct fuel as [|fuel]; [lia|].
  simpl. replace (now w <? now w + timeout_ms) with false
    by (symmetry; apply Z.ltb_ge; lia).
  reflexivity.
Qed.

Lemma send_json_zero_timeout_witness :
  send_json 1 (mkWorld 3 true [] [Sample.ok_line 0] []) Sample.status_cmd
            true 0
  = Ok (mkLine 3 "(timeout waiting for JSON)" (Some timeout_obj),
        mkWorld 3 true [Sample.status_cmd] [Sample.ok_line 0] []).
Proof.
  apply (send_json_zero_timeout 1
           (mkWorld 3 true [] [Sample.ok_line 0] []) Sample.status_cmd 0).
  - reflexivity.
  - lia.
  - lia.
Defined.

(** ** The log view *)

Lemma slice_from_tail {A : Type} (k : Z) (l : list A) :
  1 <= k ->
  slice_from (- k) l = skipn (length l - Z.to_nat k) l.
Proof.
  intros Hk. unfold slice_from.
  destruct (- k <? 0) eqn:E; [|lia].
  f_equal. lia.
Qed.

(** X11. On a settled queue the log view is a snapshot: it returns the last
    [max_lines] lines in order (all of them when there are fewer) and leaves
    the queue, the clock and the link as they were.  Asked for zero lines it
    returns every line, not none. *)
Theorem get_recent_lines_snapshot (w : World) (max_lines : Z) :
  incoming w = [] ->
  (length (rxq w) <= 1000)%nat ->
  snd (get_recent_lines w max_lines)
  = mkWorld (now w) (ser_open w) (tx w) (rxq w) [] /\
  (1 <= max_lines ->
   fst (get_recent_lines w max_lines)
   = skipn (length (rxq w) - Z.to_nat max_lines) (rxq w) /\
   length (fst (get_recent_lines w max_lines))
   = Nat.min (Z.to_nat max_lines) (length (rxq w))) /\
  (max_lines = 0 -> fst (get_recent_lines w max_lines) = rxq w).
Proof.
  intros Hinc Hlen.
  rewrite (get_recent_lines_settled w max_lines Hinc Hlen).
  cbn [fst snd]. repeat apply conj.
  - reflexivity.
  - intros Hk. rewrite slice_from_tail by assumption.
    split; [reflexivity|]. rewrite length_skipn. lia.
  - intros ->. reflexivity.
Qed.

Lemma get_recent_lines_snapshot_witness :
  let w := mkWorld 9 true []
             [Sample.boot_line 0; Sample.ok_line 1; Sample.boot_line 2] [] in
  fst (get_recent_lines w 2) = [Sample.ok_line 1; Sample.boot_line 2] /\
  fst (get_recent_lines w 0)
  = [Sample.boot_line 0; Sample.ok_line 1; Sample.boot_line 2].
Proof.
  cbv zeta.
  destruct (get_recent_lines_snapshot
              (mkWorld 9 true []
                 [Sample.boot_line 0; Sample.ok_line 1; Sample.boot_line 2] [])
              2 eq_refl) as (_ & Htail & _); [simpl; lia|].
  destruct (get_recent_lines_snapshot
              (mkWorld 9 true []
                 [Sample.boot_line 0; Sample.ok_line 1; Sample.boot_line 2] [])
              0 eq_refl) as (_ & _ & Hall); [simpl; lia|].
  split.
  - apply Htail. lia.
  - apply Hall. reflexivity.
Defined.

(** X12. What [ui_log_tail] shows of a settled queue: for [n] of one or more
    the last [n] lines; for [n = 0] the newest line alone; for a negative
    [n] nothing.  The queue keeps its lines. *)
Theorem ui_log_tail_shows (w : World) (n : Z) :
  incoming w = [] ->
  (length (rxq w) <= 1000)%nat ->
  fst (ui_log_tail_lines w n)
  = (if 1 <=? n then skipn (length (rxq w) - Z.to_nat n) (rxq w)
     else if n =? 0 then skipn (length (rxq w) - 1) (rxq w)
     else []) /\
  rxq (snd (ui_log_tail_lines w n)) = rxq w.
Proof.
  intros Hinc Hlen. unfold ui_log_tail_lines.
  rewrite (get_recent_lines_settled w (Z.max 1 n) Hinc Hlen).
  cbn [fst snd rxq]. split; [|reflexivity].
  rewrite (slice_from_tail (Z.max 1 n)) by lia.
  destruct (1 <=? n) eqn:E1.
  - apply Z.leb_le in E1. rewrite (slice_from_tail n) by lia.
    rewrite length_skipn.
    replace (Z.max 1 n) with n by lia.
    replace (length (rxq w) - (length (rxq w) - Z.to_nat n) - Z.to_nat n)%nat
      with 0%nat by lia.
    reflexivity.
  - apply Z.leb_gt in E1. replace (Z.max 1 n) with 1 by lia.
    destruct (n =? 0) eqn:E0.
    + apply Z.eqb_eq in E0. subst n. reflexivity.
    + apply Z.eqb_neq in E0. unfold slice_from.
      destruct (- n <? 0) eqn:E; [lia|].
      apply skipn_all2. rewrite length_skipn. lia.
Qed.

Lemma ui_log_tail_shows_witness :
  let w := mkWorld 9 true []
             [Sample.boot_line 0; Sample.ok_line 1; Sample.boot_line 2] [] in
  fst (ui_log_tail_lines w 0) = [Sample.boot_line 2] /\
  fst (ui_log_tail_lines w (-3)) = [].
Proof.
  cbv zeta.
  split.
  - apply (proj1 (ui_log_tail_shows
                    (mkWorld 9 true []
                       [Sample.boot_line 0; Sample.ok_line 1;
                        Sample.boot_line 2] [])
                    0 eq_refl ltac:(simpl; lia))).
  - apply (proj1 (ui_log_tail_shows
                    (mkWorld 9 true []
                       [Sample.boot_line 0; Sample.ok_line 1;
                        Sample.boot_line 2] [])
                    (-3) eq_refl ltac:(simpl; lia))).
Defined.

(** ** The reader thread *)

Lemma reader_loop_publishes (L : Lib) (reads : list (Z * readline)) :
  forall q,
    _reader_loop L reads q = fold_left publish (framed_lines L reads) q.
Proof.
  induction reads as [|[at_ms r] reads IH]; intros q; [reflexivity|].
  destruct r as [| |decoded]; simpl.
  - reflexivity.
  - apply IH.
  - apply IH.
Qed.

(** X13. Whatever the link delivers, the reader thread leaves in the queue
    the most recent lines it framed, in the order read, after what was
    there, and never more than 1000 entries; an empty read changes nothing
    and nothing read after an exception of the link is published. *)
Theorem reader_loop_keeps_recent (L : Lib) (reads : list (Z * readline))
    (q : list DeviceLine) :
  (length q <= 1000)%nat ->
  let lines := framed_lines L reads in
  _reader_loop L reads q
  = skipn (length q + length lines - 1000) (q ++ lines) /\
  (length (_reader_loop L reads q) <= 1000)%nat /\
  (forall at_ms rest,
     _reader_loop L ((at_ms, ReadNothing) :: rest) q = _reader_loop L rest q) /\
  (forall at_ms rest, _reader_loop L ((at_ms, ReadRaised) :: rest) q = q).
Proof.
  intros Hq lines.
  assert (H : _reader_loop L reads q
              = skipn (length q + length lines - 1000) (q ++ lines)).
  { rewrite reader_loop_publishes. now apply publish_all_keeps_recent. }
  repeat apply conj.
  - exact H.
  - rewrite H, length_skipn, length_app. lia.
  - reflexivity.
  - reflexivity.
Qed.

Lemma reader_loop_keeps_recent_witness :
  _reader_loop Sample.sample_lib
    [(1, ReadLine "boot"); (2, ReadNothing); (3, ReadRaised);
     (4, ReadLine "late")]
    [Sample.boot_line 0]
  = skipn (1 + 1 - 1000) ([Sample.boot_line 0] ++ [mkLine 1 "boot" None]).
Proof.
  apply (proj1 (reader_loop_keeps_recent Sample.sample_lib
                  [(1, ReadLine "boot"); (2, ReadNothing); (3, ReadRaised);
                   (4, ReadLine "late")]
                  [Sample.boot_line 0] ltac:(simpl; lia))).
Defined.

(** ** Commands *)

Lemma obj_or_raw_truthy (dl : DeviceLine) : truthy (obj_or_raw dl) = true.
Proof.
  unfold obj_or_raw. destruct (obj dl) as [o|]; [|reflexivity].
  destruct (truthy o) eqn:E; [exact E|reflexivity].
Qed.

(** The shape all command helpers share: send, wait, take the object or the
    raw text. *)
Lemma command_frame (fuel : nat) (w : World) (payload : json) (timeout_ms : Z)
    (reply : json) (w' : World) :
  (r <- send_json fuel w payload true timeout_ms ;;
   Ok (obj_or_raw (fst r), snd r)) = Ok (reply, w') ->
  truthy reply = true /\
  tx w' = tx w ++ [payload] /\
  ser_open w = true /\ ser_open w' = true /\ now w <= now w'.
Proof.
  intros H.
  destruct (send_json fuel w payload true timeout_ms) as [[dl w1]| |] eqn:E;
    simpl in H; try discriminate.
  injection H as <- <-.
  destruct (send_json_frame _ _ _ _ _ _ _ E) as (H1 & H2 & H3 & H4 & _).
  split; [apply obj_or_raw_truthy|]. auto.
Qed.

(** The wait adds no line to the queue or to what is still to come. *)
Lemma wait_json_loop_lines (fuel : nat) :
  forall deadline w dl w',
    wait_json_loop fuel deadline w = Ok (dl, w') ->
    (length (rxq w') + length (incoming w')
     <= length (rxq w) + length (incoming w))%nat.
Proof.
  induction fuel as [|fuel IH]; intros deadline w dl w' Hrun; [discriminate|].
  simpl in Hrun. destruct (now w <? deadline) eqn:Hnow.
  - apply Z.ltb_lt in Hnow.
    destruct (queue_get POLL_MS w) as [r w1] eqn:Hget.
    rewrite <- queue_get_env_ideal in Hget.
    destruct (queue_get_env_spec deadline 0 _ _ _ Hnow (Z.le_refl 0) Hget)
      as (_ & _ & _ & _ & Hlines & _).
    assert (Hnext : wait_json_loop fuel deadline w1 = Ok (dl, w') ->
              (length (rxq w') + length (incoming w')
               <= length (rxq w) + length (incoming w))%nat).
    { intros H. specialize (IH _ _ _ _ H). lia. }
    destruct r as [x|]; [|now apply Hnext].
    destruct (obj x); [|now apply Hnext].
    injection Hrun as _ <-. exact Hlines.
  - injection Hrun as _ <-. lia.
Qed.

Lemma wait_fuel_of_timeout (w : World) (timeout_ms : Z) :
  wait_fuel (now w + timeout_ms) w
  = S (length (rxq w) + length (incoming w)
       + Z.to_nat ((timeout_ms + POLL_MS - 1) / POLL_MS)).
Proof.
  unfold wait_fuel, wait_measure.
  replace (now w + timeout_ms - now w) with timeout_ms by lia. reflexivity.
Qed.

Lemma wait_fuel_mono (w : World) (shorter longer : Z) :
  shorter <= longer ->
  (wait_fuel (now w + shorter) w <= wait_fuel (now w + longer) w)%nat.
Proof.
  intros Hle. rewrite !wait_fuel_of_timeout. unfold POLL_MS.
  assert ((shorter + 50 - 1) / 50 <= (longer + 50 - 1) / 50)
    by (apply Z.div_le_mono; lia).
  lia.
Qed.

(** Every command helper runs to its answer on an open link, and leaves the
    link open and the wait no longer for the next command. *)
Lemma command_runs (fuel : nat) (w : World) (payload : json) (timeout_ms : Z) :
  ser_open w = true ->
  (wait_fuel (now w + timeout_ms) w <= fuel)%nat ->
  exists dl w',
    send_json fuel w payload true timeout_ms = Ok (dl, w') /\
    (r <- send_json fuel w payload true timeout_ms ;;
     Ok (obj_or_raw (fst r), snd r)) = Ok (obj_or_raw dl, w') /\
    tx w' = tx w ++ [payload] /\
    ser_open w' = true /\
    obj dl <> None /\
    (forall later,
       (wait_fuel (now w' + later) w' <= wait_fuel (now w + later) w)%nat).
Proof.
  intros Hopen Hfuel.
  destruct (send_json_returns fuel w payload true timeout_ms Hopen Hfuel)
    as (dl & w' & Hrun).
  exists dl, w'. rewrite Hrun. cbn [Py.bind fst snd].
  destruct (send_json_frame _ _ _ _ _ _ _ Hrun)
    as (_ & Hopen' & Htx & _ & Hobj & _).
  repeat apply conj; try reflexivity; try assumption.
  - now apply Hobj.
  - intros later. rewrite !wait_fuel_of_timeout.
    unfold send_json in Hrun. rewrite Hopen in Hrun.
    cbn [negb] in Hrun. cbv zeta in Hrun. cbn [now] in Hrun.
    apply wait_json_loop_lines in Hrun. simpl in Hrun. lia.
Qed.

Lemma command_answers_holds (fuel : nat) (w : World) (payload : json)
    (timeout_ms : Z) :
  ser_open w = true ->
  (wait_fuel (now w + timeout_ms) w <= fuel)%nat ->
  command_answers fuel w payload timeout_ms
    (r <- send_json fuel w payload true timeout_ms ;;
     Ok (obj_or_raw (fst r), snd r)).
Proof.
  intros Hopen Hfuel.
  destruct (command_runs fuel w payload timeout_ms Hopen Hfuel)
    as (dl & w' & Hsend & Hrun & Htx & _ & Hobj & _).
  exists dl, w', (obj_or_raw dl).
  repeat apply conj; try assumption.
  - destruct (obj dl) as [o|] eqn:E; [|contradiction].
    exists o. split; [reflexivity|].
    unfold obj_or_raw. rewrite E.
    split; intros Ht; now rewrite Ht.
  - apply obj_or_raw_truthy.
Qed.

(** X14. On an open link, with the turns the longest wait (2 s) can take,
    every command helper returns; it has written exactly its request, in
    the wire shape of the protocol, after what was written before; it hands
    on what [send_json] returned for that request and that timeout: the
    object of the line when it is not empty, else [{"raw": ...}] with the
    text of the line; and its answer is never empty. *)
Theorem commands_write_their_request (fuel : nat) (w : World) :
  ser_open w = true ->
  (wait_fuel (now w + 2000) w <= fuel)%nat ->
  (forall value,
     command_answers fuel w
       (JObj [("cmd", JStr "arm"); ("value", JBool value)]) 1000
       (cmd_arm fuel w value)) /\
  command_answers fuel w (JObj [("cmd", JStr "status")]) 1000
                  (cmd_status fuel w) /\
  command_answers fuel w (JObj [("cmd", JStr "get"); ("path", JStr "*")]) 1500
                  (cmd_telemetry fuel w) /\
  (forall path value,
     command_answers fuel w
       (JObj [("cmd", JStr "set"); ("path", JStr path); ("value", value)])
       1000 (cmd_set fuel w path value)) /\
  (forall dots,
     command_answers fuel w
       (JObj [("cmd", JStr "dots.inactive");
              ("dots", JArr (map dot_json dots))])
       2000 (cmd_upload_dots fuel w dots)) /\
  command_answers fuel w
    (JObj [("cmd", JStr "dots.swap"); ("value", JBool true)]) 1000
    (cmd_swap fuel w).
Proof.
  intros Hopen Hfuel.
  assert (H1000 : (wait_fuel (now w + 1000) w <= fuel)%nat)
    by (pose proof (wait_fuel_mono w 1000 2000); lia).
  assert (H1500 : (wait_fuel (now w + 1500) w <= fuel)%nat)
    by (pose proof (wait_fuel_mono w 1500 2000); lia).
  repeat apply conj; intros; now apply command_answers_holds.
Qed.

Lemma commands_write_their_request_witness :
  let w := mkWorld 0 true [] [mkLine 0 "{}" (Some (JObj []))] [] in
  ser_open w = true /\
  (wait_fuel (now w + 2000) w <= 42)%nat /\
  command_answers 42 w (JObj [("cmd", JStr "status")]) 1000 (cmd_status 42 w)
  /\
  cmd_status 42 w
  = Ok (JObj [("raw", JStr "{}")], mkWorld 0 true [Sample.status_cmd] [] []).
Proof.
  cbv zeta.
  assert (Hfuel : (wait_fuel (0 + 2000)
                     (mkWorld 0 true [] [mkLine 0 "{}" (Some (JObj []))] [])
                   <= 42)%nat) by (vm_compute; repeat constructor).
  split; [reflexivity|]. split; [exact Hfuel|].
  split; [|vm_compute; reflexivity].
  apply (proj1 (proj2 (commands_write_their_request 42
           (mkWorld 0 true [] [mkLine 0 "{}" (Some (JObj []))] [])
           eq_refl Hfuel))).
Defined.



(** ** Uploading a dot list *)

Lemma parse_entries_without_objects (L : Lib) (cap : Z) (items : list json) :
  (forall fields, ~ In (JObj fields) items) ->
  forall acc, parse_entries L cap items acc = Ok acc.
Proof.
  induction items as [|v rest IH]; intros Hno acc; [reflexivity|].
  assert (Hrest : forall fields, ~ In (JObj fields) rest)
    by (intros fields H; apply (Hno fields); now right).
  destruct v; try (simpl; now apply IH).
  exfalso. apply (Hno fields). now left.
Qed.

(** X16. A text with no dot in it is not sent: when the text is blank, is
    not JSON, is JSON but no list, or is a list without any object entry,
    [ui_upload_and_swap] writes nothing to the link, whether open or not,
    and reports [no_dots] with the parser's message. *)
Theorem ui_upload_sends_nothing_without_dots (L : Lib) (g : Globals)
    (fuel : nat) (w : World) (text : string) (do_swap : bool) :
  let run := ui_upload_and_swap L g fuel w text do_swap in
  let no_dots msg :=
    Ok (JObj [("error", JStr "no_dots"); ("detail", JStr msg)], w) in
  let stripped := str_strip L text in
  (stripped = EmptyString -> run = no_dots "empty") /\
  (forall e,
     stripped <> EmptyString -> json_loads L stripped = inl e ->
     run = no_dots ("JSON parse error: " ++ e)%string) /\
  (forall obj,
     stripped <> EmptyString -> json_loads L stripped = inr obj ->
     (forall items, dots_field obj <> JArr items) ->
     run = no_dots "expected a JSON list of dots or {dots:[...]}") /\
  (forall obj items,
     stripped <> EmptyString -> json_loads L stripped = inr obj ->
     dots_field obj = JArr items ->
     (forall fields, ~ In (JObj fields) items) ->
     run = no_dots "ok (0 dots)").
Proof.
  cbv zeta. unfold ui_upload_and_swap, parse_dots_json. repeat apply conj.
  - intros ->. reflexivity.
  - intros e Hne Hload.
    destruct (String.eqb_spec (str_strip L text) EmptyString); [contradiction|].
    rewrite Hload. reflexivity.
  - intros obj Hne Hload Hnot.
    destruct (String.eqb_spec (str_strip L text) EmptyString); [contradiction|].
    rewrite Hload. unfold parse_dots_value.
    destruct (dots_field obj) as [| | | | |items|]; try reflexivity.
    now destruct (Hnot items).
  - intros obj items Hne Hload Hfield Hno.
    destruct (String.eqb_spec (str_strip L text) EmptyString); [contradiction|].
    rewrite Hload. unfold parse_dots_value. rewrite Hfield.
    rewrite (parse_entries_without_objects L _ items Hno). reflexivity.
Qed.

Lemma ui_upload_sends_nothing_without_dots_witness :
  let closed := mkWorld 0 false [] [] [] in
  let lib doc :=
    mkLib (fun s => s) (fun _ => doc) (fun _ => None)
          (fun _ => Sample.white_image) (fun im _ => im) (fun _ v => v) in
  let no_dots msg :=
    Ok (JObj [("error", JStr "no_dots"); ("detail", JStr msg)], closed) in
  ui_upload_and_swap (lib (inr JNull)) module_init 0 closed EmptyString true
  = no_dots "empty" /\
  ui_upload_and_swap (lib (inl "Expecting value")) module_init 0 closed "dots"
                     true
  = no_dots "JSON parse error: Expecting value" /\
  ui_upload_and_swap (lib (inr (JInt 5))) module_init 0 closed "5" true
  = no_dots "expected a JSON list of dots or {dots:[...]}" /\
  ui_upload_and_swap (lib (inr (JArr [JInt 1; JNull]))) module_init 0 closed
                     "[1, null]" true
  = no_dots "ok (0 dots)".
Proof.
  cbv zeta. repeat apply conj.
  - apply (proj1 (ui_upload_sends_nothing_without_dots _ _ _ _ _ _)).
    reflexivity.
  - apply (proj1 (proj2 (ui_upload_sends_nothing_without_dots _ _ _ _ _ _))
             "Expecting value"); [discriminate|reflexivity].
  - apply (proj1 (proj2 (proj2
             (ui_upload_sends_nothing_without_dots _ _ _ _ _ _))) (JInt 5));
      [discriminate|reflexivity|discriminate].
  - apply (proj2 (proj2 (proj2
             (ui_upload_sends_nothing_without_dots _ _ _ _ _ _)))
             (JArr [JInt 1; JNull]) [JInt 1; JNull]);
      [discriminate|reflexivity|reflexivity|].
    intros fields [H|[H|[]]]; discriminate H.
Defined.

(** X17. A text with dots is uploaded first and swapped second: when
    [ui_upload_and_swap] returns, the link has received the
    [dots.inactive] request carrying the parsed list and, if a swap was
    asked for, the [dots.swap] request after it, and nothing else; on a
    link that is not open it raises. *)
Theorem ui_upload_then_swap (L : Lib) (g : Globals) (fuel : nat) (w : World)
    (text : string) (do_swap : bool) (d : Dot) (dots : list Dot)
    (msg : string) :
  parse_dots_json L g text = Ok (d :: dots, msg) ->
  let upload :=
    JObj [("cmd", JStr "dots.inactive");
          ("dots", JArr (map dot_json (d :: dots)))] in
  let swap := JObj [("cmd", JStr "dots.swap"); ("value", JBool true)] in
  (forall shown w',
     ui_upload_and_swap L g fuel w text do_swap = Ok (shown, w') ->
     tx w' = tx w ++ upload :: (if do_swap then [swap] else [])) /\
  (ser_open w = false ->
   ui_upload_and_swap L g fuel w text do_swap
   = Raise (RuntimeError "Serial not open")).
Proof.
  intros Hparse upload swap. unfold ui_upload_and_swap.
  rewrite Hparse. cbn [Py.bind]. split.
  - intros shown w' H.
    destruct (cmd_upload_dots fuel w (d :: dots)) as [[up w1]| |] eqn:E1;
      simpl in H; try discriminate.
    apply command_frame in E1 as (_ & T1 & _).
    destruct do_swap.
    + destruct (cmd_swap fuel w1) as [[sw w2]| |] eqn:E2;
        simpl in H; try discriminate.
      injection H as _ <-.
      apply command_frame in E2 as (_ & T2 & _).
      rewrite T2, T1, <- app_assoc. reflexivity.
    + injection H as _ <-. exact T1.
  - intros Hclosed. unfold cmd_upload_dots, send_json.
    rewrite Hclosed. reflexivity.
Qed.

Lemma ui_upload_then_swap_witness :
  let w := mkWorld 0 true [] [Sample.ok_line 0; Sample.ok_line 0] [] in
  parse_dots_json Sample.sample_lib module_init "[...]"
  = Ok ([mkDot 0 2; mkDot 65535 5], "ok (2 dots)") /\
  exists shown w',
    ui_upload_and_swap Sample.sample_lib module_init 3 w "[...]" true
    = Ok (shown, w') /\
    tx w'
    = [JObj [("cmd", JStr "dots.inactive");
             ("dots", JArr (map dot_json [mkDot 0 2; mkDot 65535 5]))];
       JObj [("cmd", JStr "dots.swap"); ("value", JBool true)]].
Proof.
  cbv zeta. split; [reflexivity|].
  destruct (ui_upload_and_swap Sample.sample_lib module_init 3
              (mkWorld 0 true [] [Sample.ok_line 0; Sample.ok_line 0] [])
              "[...]" true)
    as [[shown w']| |] eqn:E;
    [|vm_compute in E; discriminate E|vm_compute in E; discriminate E].
  exists shown, w'. split; [reflexivity|].
  apply (proj1 (ui_upload_then_swap Sample.sample_lib module_init 3
                  (mkWorld 0 true [] [Sample.ok_line 0; Sample.ok_line 0] [])
                  "[...]" true (mkDot 0 2) [mkDot 65535 5] "ok (2 dots)"
                  eq_refl) shown w' E).
Defined.

(** ** Port autodetection *)

Lemma find_first_match {A : Type} (f : A -> bool) (before : list A) (x : A)
    (after : list A) :
  Forall (fun y => f y = false) before -> f x = true ->
  find f (before ++ x :: after) = Some x.
Proof.
  intros Hbefore Hx. induction Hbefore as [|y l Hy _ IH]; simpl.
  - now rewrite Hx.
  - now rewrite Hy.
Qed.

Lemma find_no_match {A : Type} (f : A -> bool) (l : list A) :
  Forall (fun y => f y = false) l -> find f l = None.
Proof.
  induction 1 as [|y l Hy _ IH]; simpl; [reflexivity|]. now rewrite Hy.
Qed.

Lemma find_map_same {A : Type} (f : A -> bool) (g : A -> A) (l : list A) :
  (forall x, f (g x) = f x) ->
  find f (map g l) = option_map g (find f l).
Proof.
  intros Hfg. induction l as [|x rest IH]; [reflexivity|].
  simpl. rewrite Hfg. destruct (f x); [reflexivity|exact IH].
Qed.

(** X18. [autodetect_port] answers the empty string exactly when there are
    no ports to choose from and otherwise the device of one of the ports:
    that of the first port whose lowered description mentions usb, cp210,
    ch340, uart or serial, or, when none does, that of the first port.  The
    hardware id plays no part. *)
Theorem autodetect_port_choice (lower : string -> string)
    (ports : list PortInfo) :
  let likely p :=
    looks_like_usb_serial
      (lower (match description p with Some d => d | None => EmptyString end))
  in
  (ports = [] -> autodetect_port lower ports = EmptyString) /\
  (ports <> [] ->
   exists p, In p ports /\ autodetect_port lower ports = device p) /\
  (forall before p after,
     ports = before ++ p :: after ->
     Forall (fun q => likely q = false) before -> likely p = true ->
     autodetect_port lower ports = device p) /\
  (forall p rest,
     ports = p :: rest ->
     Forall (fun q => likely q = false) ports ->
     autodetect_port lower ports = device p) /\
  (forall h,
     autodetect_port lower
       (map (fun p => mkPort (device p) (description p) h) ports)
     = autodetect_port lower ports).
Proof.
  cbv zeta. repeat apply conj.
  - intros ->. reflexivity.
  - intros Hne. unfold autodetect_port.
    destruct (find _ ports) as [p|] eqn:E.
    + exists p. split; [|reflexivity]. now apply find_some in E.
    + destruct ports as [|p rest]; [contradiction|].
      exists p. split; [now left|reflexivity].
  - intros before p after -> Hbefore Hp. unfold autodetect_port.
    now rewrite (find_first_match _ before p after Hbefore Hp).
  - intros p rest -> Hnone. unfold autodetect_port.
    now rewrite (find_no_match _ _ Hnone).
  - intros h. unfold autodetect_port.
    rewrite find_map_same by reflexivity.
    destruct (find _ ports) as [p|]; [reflexivity|].
    destruct ports as [|p rest]; reflexivity.
Qed.

Lemma autodetect_port_choice_witness :
  let ports :=
    [mkPort "/dev/ttyS0" (Some "n/a") None;
     mkPort "/dev/ttyUSB0" (Some "cp2102 usb to uart bridge") (Some "10C4");
     mkPort "/dev/ttyACM0" (Some "usb modem") None] in
  autodetect_port (fun s => s) ports = "/dev/ttyUSB0" /\
  autodetect_port (fun s => s) [mkPort "COM1" None None; mkPort "COM2" None None]
  = "COM1".
Proof.
  cbv zeta. split.
  - apply (proj1 (proj2 (proj2 (autodetect_port_choice (fun s => s) _)))
             [mkPort "/dev/ttyS0" (Some "n/a") None]
             (mkPort "/dev/ttyUSB0" (Some "cp2102 usb to uart bridge")
                     (Some "10C4"))
             [mkPort "/dev/ttyACM0" (Some "usb modem") None] eq_refl).
    + repeat constructor.
    + reflexivity.
  - apply (proj1 (proj2 (proj2 (proj2
             (autodetect_port_choice (fun s => s) _))))
             (mkPort "COM1" None None) [mkPort "COM2" None None] eq_refl).
    repeat constructor.
Defined.

(** ** How long a send can take *)

(** X19. On an open link a waiting [send_json] raises the exception of the
    write or the flush when there is one, and otherwise comes back, whatever
    the device sends and however late, within their slack, the polls of the
    wait come back: one turn of the wait per buffered or expected line, one
    per poll interval up to the deadline and one more are enough.  It comes
    back before the deadline, which runs from the end of the write, plus one
    poll interval (50 ms) plus that slack, with a reply or with the timeout
    marker. *)
Theorem send_json_comes_back (E : LinkEnv) (slack : Z) (fuel : nat)
    (w : World) (payload : json) (timeout_ms : Z) :
  ser_open w = true ->
  (forall k, 0 <= late E k <= slack) ->
  0 <= timeout_ms ->
  (wait_fuel (now w + timeout_ms) w <= fuel)%nat ->
  (forall e,
     write_error E = Some e ->
     send_json_env E fuel w payload true timeout_ms = Raise e) /\
  (write_error E = None ->
   exists dl w',
     send_json_env E fuel w payload true timeout_ms = Ok (dl, w') /\
     now w' < now w + write_ms E + timeout_ms + POLL_MS + slack).
Proof.
  intros Hopen Hlate Htimeout Hfuel. unfold send_json_env.
  replace (negb (ser_open w)) with false by (now rewrite Hopen).
  split.
  - intros e ->. reflexivity.
  - intros ->. cbv iota beta zeta. simpl negb. cbv iota. simpl now.
    set (w1 := mkWorld (now w + write_ms E) (ser_open w) (tx w ++ [payload])
                       (rxq w) (incoming w)).
    assert (Hm : (wait_measure (now w + write_ms E + timeout_ms) w1
                  < fuel)%nat).
    { subst w1. rewrite wait_measure_of_timeout.
      unfold wait_fuel in Hfuel. lia. }
    destruct (wait_json_loop_env_returns (late E) fuel
                (fun k => proj1 (Hlate k)) 0
                (now w + write_ms E + timeout_ms) w1 Hm)
      as (dl & w' & Hrun).
    exists dl, w'. split; [exact Hrun|].
    destruct (wait_json_loop_env_bounded (late E) slack fuel Hlate
                _ _ _ _ _ Hrun) as [Hle Hb].
    pose proof (Hlate 0%nat) as H0.
    simpl in Hle, Hb. unfold POLL_MS in *. lia.
Qed.

Lemma send_json_comes_back_witness :
  let w :=
    mkWorld 0 true [] [] [Sample.boot_line 30; Sample.ok_line 1010] in
  send_json_env (mkEnv 0 (Some (RuntimeError "Write timeout")) (fun _ => 1))
                (wait_fuel (now w + 1000) w) w Sample.status_cmd true 1000
  = Raise (RuntimeError "Write timeout") /\
  exists dl w',
    send_json_env (mkEnv 2 None (fun _ => 1)) (wait_fuel (now w + 1000) w) w
                  Sample.status_cmd true 1000
    = Ok (dl, w') /\
    now w' < now w + 2 + 1000 + POLL_MS + 1.
Proof.
  cbv zeta. split.
  - apply (proj1 (send_json_comes_back
                    (mkEnv 0 (Some (RuntimeError "Write timeout"))
                           (fun _ => 1)) 1 _
                    (mkWorld 0 true [] []
                       [Sample.boot_line 30; Sample.ok_line 1010])
                    Sample.status_cmd 1000 eq_refl
                    ltac:(intros k; simpl; lia) ltac:(lia) (le_n _))
             (RuntimeError "Write timeout") eq_refl).
  - apply (proj2 (send_json_comes_back (mkEnv 2 None (fun _ => 1)) 1 _
                    (mkWorld 0 true [] []
                       [Sample.boot_line 30; Sample.ok_line 1010])
                    Sample.status_cmd 1000 eq_refl
                    ltac:(intros k; simpl; lia) ltac:(lia) (le_n _))
             eq_refl).
Defined.
